(** * Consensus benchmarking engine of the validator

    A shallow embedding of [neurons/validators/benchmark.py]
    (class [BenchmarkValidator]) and of the default benchmark query script
    of [neurons/remote_config.py]
    ([ValidatorConfig.get_benchmark_query_script]).

    The engine talks to three collaborators that are not part of the
    repository: Python's [random] module ([randint], [shuffle]),
    scikit-learn's [KMeans] and the bittensor [dendrite].  They are gathered
    in the interface [Externals]; every function of the engine is
    parametric in it and threads the state of the outside world
    explicitly. *)

From stdpp Require Import gmap strings list fin_maps pretty.
From Stdlib Require Import ZArith Lia.


(** ** Exceptions and the monad of the engine *)

(** The Python exceptions that the embedded code can meet. *)
Inductive Exn : Type :=
  | ValueError
  | TypeError
  | TransportError.

(** The result of running a piece of Python code: a value or an exception
    that is unwinding the stack. *)
Inductive outcome (A : Type) : Type :=
  | Ok (a : A)
  | Raised (e : Exn).
Arguments Ok {A} a.
Arguments Raised {A} e.

(** ** Data of the source *)

Section Data.
Context {Latency Output Axon : Type}.

(** A discovery response, reduced to the attributes that the engine reads:
    [response.axon], [response.output.metadata.network],
    [response.output.start_block_height], [response.output.block_height]. *)
Record Discovery : Type := mkDiscovery {
  axon : Axon;
  network : string;
  start_block_height : Z;
  block_height : Z;
}.

(** A uid is a tensor; only its elements matter ([uid.numel()],
    [uid.item()], [int(uid.numpy())]). *)
Definition Uid : Type := list Z.

(** An element of [filtered_responses]: the pair [(response, uid)]. *)
Definition Item : Type := Discovery * Uid.

(** The triple returned by [run_benchmark]; each component may be the
    Python [None]. *)
Definition Triple : Type := option Z * option Latency * option Output.

(** What [dendrite.query] can hand back to [run_benchmark]. *)
Inductive Reply : Type :=
  | QueryRaises                       (* the call raises *)
  | NoResponse                        (* [benchmark_response is None] *)
  | Response (output : option Output) (process_time : Latency).

(** One call of [run_benchmark], as [execute_benchmarks] makes it: the
    responder, the query sent and the triple that came back. *)
Record Probe : Type := mkProbe {
  p_item : Item;
  p_query : string;
  p_result : Triple;
}.

(** The entry of a cohort in the dictionary built by [group_responses]. *)
Record GroupInfo : Type := mkGroupInfo {
  common_start : Z;
  common_end : Z;
  responses : list (list Item);
}.

(** The entry of the verdict map. *)
Definition Verdict : Type := option Latency * bool.
End Data.

Arguments Discovery : clear implicits.
Arguments Item : clear implicits.
Arguments Triple : clear implicits.
Arguments Reply : clear implicits.
Arguments Probe : clear implicits.
Arguments GroupInfo : clear implicits.
Arguments Verdict : clear implicits.

(** The attributes of [ValidatorConfig] that the engine reads. *)
Record ValidatorConfig : Type := mkConfig {
  benchmark_timeout : Z;
  benchmark_cluster_size : Z;
  benchmark_query_chunk_size : Z;
  benchmark_query_diff : Z;
}.

(** The values set by [ValidatorConfig.load_and_get_config_values] when the
    remote configuration overrides nothing. *)
Definition default_config : ValidatorConfig :=
  {| benchmark_timeout := 600;
     benchmark_cluster_size := 1;
     benchmark_query_chunk_size := 5;
     benchmark_query_diff := 10000 |}.

(** ** The collaborators *)

(** [World] is the state of everything outside the engine: the random
    generator and the remote responders.
    - [ext_randint lo hi] is [random.randint(lo, hi)] on a non-empty range;
    - [ext_shuffle] is [random.shuffle];
    - [ext_query axon network query timeout] is [dendrite.query];
    - [ext_kmeans k data] is [KMeans(n_clusters=k, random_state=0).fit(data)
      .labels_], or [None] when [fit] raises [ValueError]. *)
Class Externals (Latency Output Axon : Type) : Type := {
  World : Type;
  ext_randint : Z → Z → World → Z * World;
  ext_shuffle : list (Item Axon) → World → list (Item Axon) * World;
  ext_query : Axon → string → string → Z → World → Reply Latency Output * World;
  ext_kmeans : Z → list (Z * Z) → option (list Z);
}.

(** ** Dictionaries that are iterated

    A Python dictionary keeps its keys in insertion order, and the engine
    iterates over the ones it builds; they are association lists here. *)
Section Dict.
Context {K V : Type} `{EqDecision K}.

(** [d[k] = f(d.get(k))]: the value is replaced in place when the key is
    there, and the key is added at the end otherwise. *)
Fixpoint dict_upd (k : K) (f : option V → V) (d : list (K * V)) : list (K * V) :=
  match d with
  | [] => [(k, f None)]
  | (k', v) :: d' =>
      if decide (k = k') then (k', f (Some v)) :: d'
      else (k', v) :: dict_upd k f d'
  end.

Fixpoint dict_get (k : K) (d : list (K * V)) : option V :=
  match d with
  | [] => None
  | (k', v) :: d' => if decide (k = k') then Some v else dict_get k d'
  end.
End Dict.

(** [d.setdefault(k, []).append(x)] *)
Definition setdefault_append {K A : Type} `{EqDecision K}
    (k : K) (x : A) (d : list (K * list A)) : list (K * list A) :=
  dict_upd k (λ o, default [] o ++ [x]) d.

(** ** [collections.Counter] and [most_common(1)] *)
Section Counter.
Context {K : Type} `{EqDecision K}.

(** [Counter(l)]: one entry per distinct element, in the order of first
    appearance, with the number of its occurrences. *)
Definition Counter (l : list K) : list (K * nat) :=
  foldl (λ c k, dict_upd k (λ o, S (default 0 o)) c) [] l.

(** [max(items, key=itemgetter(1))] as [heapq.nlargest(1, ...)] runs it:
    the running maximum is replaced only by a strictly greater count. *)
Definition max_by_count (best : K * nat) (c : list (K * nat)) : K * nat :=
  foldl (λ b x, if decide (b.2 < x.2) then x else b) best c.

(** [Counter(l).most_common(1)]: a list of at most one pair. *)
Definition most_common_1 (c : list (K * nat)) : list (K * nat) :=
  match c with
  | [] => []
  | x :: c' => [max_by_count x c']
  end.
End Counter.


(** ** The engine *)

Section Engine.
Context {Latency Output Axon : Type} `{EqDecision Output}.
Context `{E : Externals Latency Output Axon}.

(** The state threaded through the engine: the outside world and the
    record of the probes sent so far (the engine's network egress). *)
Record St : Type := mkSt {
  world : World;
  probes : list (Probe Latency Output Axon);
}.

(** A computation runs from a state to a value or an exception, and a new
    state. *)
Definition M (A : Type) : Type := St → outcome A * St.

Definition ret {A} (a : A) : M A := λ st, (Ok a, st).

Definition bind {A B} (m : M A) (k : A → M B) : M B :=
  λ st, match m st with
        | (Ok a, st') => k a st'
        | (Raised e, st') => (Raised e, st')
        end.

Definition raise {A} (e : Exn) : M A := λ st, (Raised e, st).

(** [try: m except Exception: h] *)
Definition try_except {A} (m : M A) (h : Exn → M A) : M A :=
  λ st, match m st with
        | (Ok a, st') => (Ok a, st')
        | (Raised e, st') => h e st'
        end.

Local Notation "'let*' x ':=' m 'in' k" := (bind m (λ x, k))
  (at level 10, x name, m at level 100, k at level 200).

(** [for x in l: acc = body(acc, x)] *)
Fixpoint for_each {A S} (body : S → A → M S) (l : list A) (acc : S) : M S :=
  match l with
  | [] => ret acc
  | x :: l' => let* acc' := body acc x in for_each body l' acc'
  end.

(** *** The collaborators, as computations *)

(** [random.randint(lo, hi)]: [ValueError] on an empty range. *)
Definition randint (lo hi : Z) : M Z :=
  λ st, if decide (lo ≤ hi)%Z
        then let '(n, w) := ext_randint lo hi (world st) in
             (Ok n, mkSt w (probes st))
        else (Raised ValueError, st).

(** [random.shuffle(group)] *)
Definition shuffle (group : list (Item Axon)) : M (list (Item Axon)) :=
  λ st, let '(g, w) := ext_shuffle group (world st) in
        (Ok g, mkSt w (probes st)).

(** [self.dendrite.query(axon, protocol.Benchmark(network, query),
    deserialize=False, timeout=...)]: the response object, or [None]. *)
Definition dendrite_query (a : Axon) (net query : string) (timeout : Z)
    : M (option (option Output * Latency)) :=
  λ st, let '(r, w) := ext_query a net query timeout (world st) in
        let st' := mkSt w (probes st) in
        match r with
        | QueryRaises => (Raised TransportError, st')
        | NoResponse => (Ok None, st')
        | Response o t => (Ok (Some (o, t)), st')
        end.

(** *** lines 61-81: [run_benchmark] *)

(** [uid.item() if uid.numel() == 1 else int(uid.numpy())]: numpy converts
    only arrays of one element. *)
Definition uid_value (uid : Uid) : M Z :=
  match uid with
  | [v] => ret v
  | _ => raise TypeError
  end.

Definition failure : Triple Latency Output := (None, None, None).

Definition run_benchmark (cfg : ValidatorConfig) (response : Discovery Axon)
    (uid : Uid) (benchmark_query : string) : M (Triple Latency Output) :=
  try_except
    (let* uid_value := uid_value uid in
     let* benchmark_response :=
       dendrite_query (axon response) (network response) benchmark_query
                      (benchmark_timeout cfg) in
     match benchmark_response with
     | None => ret failure
     | Some (None, _) => ret failure
     | Some (Some output, response_time) =>
         ret (Some uid_value, Some response_time, Some output)
     end)
    (λ _, ret failure).

(** *** lines 49-59: [execute_benchmarks] *)

(** The engine's egress: the call of [run_benchmark] is put on record. *)
Definition record_probe (item : Item Axon) (q : string)
    (t : Triple Latency Output) : M unit :=
  λ st, (Ok tt, mkSt (world st) (probes st ++ [mkProbe item q t])).

(** [result[2] is not None] *)
Definition is_valid (t : Triple Latency Output) : bool :=
  match t.2 with Some _ => true | None => false end.

(** lines 52-55: the body of the loop *)
Definition execute_step (cfg : ValidatorConfig) (benchmark_query : string)
    (results : list (Triple Latency Output)) (entry : Item Axon)
    : M (list (Triple Latency Output)) :=
  let '(response, uid) := entry in
  let* result := run_benchmark cfg response uid benchmark_query in
  let* _ := record_probe (response, uid) benchmark_query result in
  ret (results ++ [result]).

Definition execute_benchmarks (cfg : ValidatorConfig)
    (responses : list (Item Axon)) (benchmark_query : string)
    : M (list (Triple Latency Output)) :=
  let* results := for_each (execute_step cfg benchmark_query) responses [] in
  ret (List.filter is_valid results).

(** *** lines 214-222: the default benchmark query script *)

(** The f-string of [build_query]. *)
Definition query_text (block_num upper : Z) : string :=
  "UNWIND range(" +:+ pretty block_num +:+ ", " +:+ pretty upper +:+
  ") AS block_height MATCH (p:Transaction) WHERE p.block_height = block_height RETURN SUM(p.block_height);".

Definition build_query (network : string) (start_block end_block diff : Z)
    : M string :=
  let mid_point := (start_block + (end_block - start_block) `div` 2)%Z in
  let* block_num := randint mid_point (end_block - diff) in
  ret (query_text block_num (block_num + diff)).

(** The globals handed to [exec]. *)
Record ScriptVars : Type := mkVars {
  v_network : string;
  v_start_block : Z;
  v_end_block : Z;
  v_diff : Z;
}.

(** Running the default script: its last line calls [build_query] with
    three arguments, so [build_query]'s [diff] is its default, 10000; the
    global [diff] is read nowhere.  The result is the global [query]. *)
Definition default_script (vars : ScriptVars) : M string :=
  build_query (v_network vars) (v_start_block vars) (v_end_block vars) 10000.

(** [validator_config.get_benchmark_query_script(network)] when the
    remote configuration has no script for the network. *)
Definition get_benchmark_query_script (cfg : ValidatorConfig)
    (network : string) : ScriptVars → M string :=
  default_script.


(** *** lines 83-117: [group_responses] *)

(** [range(0, stop, step)] for a positive step. *)
Definition range_step (stop step : nat) : list nat :=
  (λ j, j * step) <$> seq 0 ((stop + step - 1) `div` step).

(** [[group[i:i + chunk_size] for i in range(0, len(group), chunk_size)]]:
    a step of zero makes [range] raise, a negative one makes it empty. *)
Definition chunked {A} (chunk_size : Z) (group : list A) : M (list (list A)) :=
  if decide (chunk_size = 0)%Z then raise ValueError
  else if decide (chunk_size < 0)%Z then ret []
  else let n := Z.to_nat chunk_size in
       ret ((λ i, take n (drop i group)) <$> range_step (length group) n).

(** [min(...)] over a generator: [ValueError] when it yields nothing. *)
Definition py_min (l : list Z) : M Z :=
  match l with
  | [] => raise ValueError
  | x :: l' => ret (foldl Z.min x l')
  end.

(** The result of [group_responses]: network, then cluster label. *)
Definition Groups : Type := list (string * list (Z * GroupInfo Axon)).

(** lines 85-87 *)
Definition by_network (responses : list (Item Axon))
    : list (string * list (Item Axon)) :=
  foldl (λ d '(resp, uid), setdefault_append (network resp) (resp, uid) d)
        [] responses.

(** line 92 *)
Definition coverage_points (items : list (Item Axon)) : list (Z * Z) :=
  (λ '(resp, _), (start_block_height resp, block_height resp)) <$> items.

(** lines 100-102 *)
Definition by_label (labels : list Z) (items : list (Item Axon))
    : list (Z * list (Item Axon)) :=
  foldl (λ d '(label, item), setdefault_append label item d)
        [] (zip labels items).

(** lines 104-113: the body of the loop over the clusters of a network *)
Definition add_cohort (chunk_size : Z) (net : string) (new_groups : Groups)
    (entry : Z * list (Item Axon)) : M Groups :=
  let '(label, group) := entry in
  let* group := shuffle group in
  let* chunked_groups := chunked chunk_size group in
  let* min_start := py_min ((λ '(resp, _), start_block_height resp) <$> group) in
  let* min_end := py_min ((λ '(resp, _), block_height resp) <$> group) in
  ret (dict_upd net
         (λ o, dict_upd label
                 (λ _, {| common_start := min_start;
                          common_end := min_end;
                          responses := chunked_groups |})
                 (default [] o))
         new_groups).

(** lines 91-113: the body of the loop over the networks *)
Definition add_network (cfg : ValidatorConfig) (new_groups : Groups)
    (entry : string * list (Item Axon)) : M Groups :=
  let '(net, items) := entry in
  let data := coverage_points items in
  match ext_kmeans (benchmark_cluster_size cfg) data with
  | None => ret new_groups                      (* except ValueError: continue *)
  | Some labels =>
      for_each (add_cohort (benchmark_query_chunk_size cfg) net)
               (by_label labels items) new_groups
  end.

Definition group_responses (cfg : ValidatorConfig)
    (responses : list (Item Axon)) : M Groups :=
  for_each (add_network cfg) (by_network responses) [].

(** *** lines 19-47: [run_benchmarks] *)

(** lines 38-45.  The guard [if benchmark_results] skips an empty list;
    [most_common(1)[0]] on an empty counter would be an [IndexError], which
    the [except] clause turns into "no verdict". *)
Definition score (results : gmap (option Z) (Verdict Latency))
    (benchmark_results : list (Triple Latency Output))
    : gmap (option Z) (Verdict Latency) :=
  match benchmark_results with
  | [] => results
  | _ =>
      let filtered_result := (λ t, t.2) <$> benchmark_results in
      match most_common_1 (Counter filtered_result) with
      | [] => results
      | (most_common_result, _) :: _ =>
          foldl (λ results '(uid_value, response_time, result),
                   <[uid_value :=
                       (response_time,
                        bool_decide (result = most_common_result))]> results)
                results benchmark_results
      end
  end.

(** lines 28-35: the query of a chunk *)
Definition synthesize (cfg : ValidatorConfig)
    (benchmark_query_script : ScriptVars → M string)
    (net : string) (group_info : GroupInfo Axon) : M string :=
  let* jitter := randint 0 100 in
  let benchmark_query_script_vars :=
    {| v_network := net;
       v_start_block := common_start group_info;
       v_end_block := common_end group_info;
       v_diff := (benchmark_query_diff cfg - jitter)%Z |} in
  benchmark_query_script benchmark_query_script_vars.

(** lines 27-45: the body of the loop over the chunks of a cohort *)
Definition run_chunk (cfg : ValidatorConfig)
    (benchmark_query_script : ScriptVars → M string)
    (net : string) (group_info : GroupInfo Axon)
    (results : gmap (option Z) (Verdict Latency)) (chunk : list (Item Axon))
    : M (gmap (option Z) (Verdict Latency)) :=
  let* benchmark_query := synthesize cfg benchmark_query_script net group_info in
  let* benchmark_results := execute_benchmarks cfg chunk benchmark_query in
  ret (score results benchmark_results).

(** lines 25-45: the body of the loop over the cohorts of a network *)
Definition run_cohort (cfg : ValidatorConfig) (net : string)
    (results : gmap (option Z) (Verdict Latency))
    (entry : Z * GroupInfo Axon) : M (gmap (option Z) (Verdict Latency)) :=
  let benchmark_query_script := get_benchmark_query_script cfg net in
  for_each (run_chunk cfg benchmark_query_script net entry.2)
           (responses entry.2) results.

(** lines 24-45: the body of the loop over the networks *)
Definition run_network (cfg : ValidatorConfig)
    (results : gmap (option Z) (Verdict Latency))
    (entry : string * list (Z * GroupInfo Axon))
    : M (gmap (option Z) (Verdict Latency)) :=
  for_each (run_cohort cfg entry.1) entry.2 results.

Definition run_benchmarks (cfg : ValidatorConfig)
    (filtered_responses : list (Item Axon))
    : M (gmap (option Z) (Verdict Latency)) :=
  let* grouped_responses := group_responses cfg filtered_responses in
  for_each (run_network cfg) grouped_responses ∅.

End Engine.


(** ** Vocabulary of the statements *)

(** The number of occurrences of [x] in [l]. *)
Definition occurrences {K} `{EqDecision K} (x : K) (l : list K) : nat :=
  length (filter (x =.) l).

(** [m] is met in [l] no later than [x]: [m] occurs, and [x] does not occur
    before the first occurrence of [m]. *)
Definition first_seen_before {K} (m x : K) (l : list K) : Prop :=
  ∃ l1 l2, l = l1 ++ m :: l2 ∧ (m ∉ l1) ∧ (x ∉ l1).

(** [x] is the least element of [l]. *)
Definition is_minimum (x : Z) (l : list Z) : Prop :=
  x ∈ l ∧ ∀ y, y ∈ l → (x ≤ y)%Z.

(** The members of a cohort: the responders of its chunks. *)
Definition members {Axon : Type} (info : GroupInfo Axon) : list (Item Axon) :=
  concat (responses info).




(** The record of a probe of [item] with [q] that came back with [t]. *)
Definition probe_of {Latency Output Axon : Type} (q : string) (item : Item Axon)
    (t : Triple Latency Output) : Probe Latency Output Axon :=
  mkProbe item q t.

(** The triple [t] is what a probe of [item] may bring back: nothing, or
    the uid of the responder, a latency and a result. *)
Definition outcome_of {Latency Output Axon : Type} (item : Item Axon)
    (t : Triple Latency Output) : Prop :=
  t = failure ∨ ∃ u lat o, item.2 = [u] ∧ t = (Some u, Some lat, Some o).


(** The claimed bounds of a list of responders. *)
Definition starts {Axon : Type} (l : list (Item Axon)) : list Z :=
  (λ m, start_block_height m.1) <$> l.
Definition ends {Axon : Type} (l : list (Item Axon)) : list Z :=
  (λ m, block_height m.1) <$> l.

(** [info] is the cohort of the cluster [cluster]: its chunks hold members
    of the cluster only, they hold all of them, in order, when the chunk
    size is positive, and its bounds are the least start and the least end
    of the cluster. *)
Definition cohort_of_cluster {Axon : Type} (chunk_size : Z)
    (cluster : list (Item Axon)) (info : GroupInfo Axon) : Prop :=
  (∀ m, m ∈ members info → m ∈ cluster) ∧
  ((0 < chunk_size)%Z → members info = cluster) ∧
  is_minimum (common_start info) (starts cluster) ∧
  is_minimum (common_end info) (ends cluster).

(** [info] is the cohort of a cluster of responders of [rs] that declared
    the network [net]. *)
Definition cohort_ok {Axon : Type} (rs : list (Item Axon)) (chunk_size : Z)
    (net : string) (info : GroupInfo Axon) : Prop :=
  ∃ cluster, (∀ m, m ∈ cluster → m ∈ rs ∧ network m.1 = net) ∧
             cohort_of_cluster chunk_size cluster info.

(** [P] holds of every cohort of the dictionary. *)
Definition all_cohorts {Axon : Type}
    (groups : list (string * list (Z * GroupInfo Axon)))
    (P : string → GroupInfo Axon → Prop) : Prop :=
  ∀ net main_group label info,
    (net, main_group) ∈ groups → (label, info) ∈ main_group → P net info.

(** Grouping key-value pairs by key, as a loop of
    [d.setdefault(k, []).append(x)] does. *)
Definition group_by_key {K A : Type} `{EqDecision K} (kvs : list (K * A))
    : list (K * list A) :=
  foldl (λ d '(k, x), setdefault_append k x d) [] kvs.


(** The uid under which a responder is scored: the element of its uid
    tensor when there is exactly one. *)
Definition uid_of {Axon : Type} (item : Item Axon) : option Z :=
  match item.2 with
  | [u] => Some u
  | _ => None
  end.


(** ** A test bench

    A small instance of the collaborators, to run the engine on concrete
    inputs.  A responder's axon holds the reply it gives to every query;
    the random generator is a counter; [shuffle] leaves the list as it is;
    the clustering refuses fewer samples than clusters, as scikit-learn
    does, and otherwise labels a point by the 100000-block bucket of its
    start, capped at the last label. *)
Module Bench.

Definition bench_randint (lo hi : Z) (w : nat) : Z * nat :=
  ((lo + (Z.of_nat w `mod` (hi - lo + 1)))%Z, S w).

Definition bench_kmeans (k : Z) (data : list (Z * Z)) : option (list Z) :=
  if decide (k ≤ 0 ∨ Z.of_nat (length data) < k)%Z then None
  else Some ((λ p : Z * Z, Z.min (k - 1) (p.1 `div` 100000)) <$> data).

#[global] Instance externals : Externals Z string (Reply Z string) := {|
  World := nat;
  ext_randint := bench_randint;
  ext_shuffle := λ l w, (l, w);
  ext_query := λ a _ _ _ w, (a, w);
  ext_kmeans := bench_kmeans;
|}.

Definition st0 : St := {| world := 0%nat; probes := [] |}.

(** A responder of uid [u] on [net], claiming [[s, e]] and answering [r]. *)
Definition responder (u : Z) (net : string) (s e : Z) (r : Reply Z string)
    : Item (Reply Z string) :=
  ({| axon := r; network := net; start_block_height := s; block_height := e |},
   [u]).

Definition answers (o : string) (t : Z) : Reply Z string := Response (Some o) t.

(** Three responders of one cohort: two agree, the slow one does not. *)
Definition r1 := responder 1 "bitcoin" 1000 21000 (answers "X" 50).
Definition r2 := responder 2 "bitcoin" 1000 21000 (answers "X" 60).
Definition r3 := responder 3 "bitcoin" 1000 21000 (answers "Y" 9999).

(** The triples of their probes. *)
Definition raw123 : list (Triple Z string) :=
  [(Some 1, Some 50, Some "X"); (Some 2, Some 60, Some "X");
   (Some 3, Some 9999, Some "Y")]%Z.

(** Two responders of one cluster whose claims start at different blocks. *)
Definition a1 := responder 1 "bitcoin" 100 200 (answers "X" 50).
Definition a2 := responder 2 "bitcoin" 150 250 (answers "X" 60).

(** Their cohort, as [group_responses] builds it. *)
Definition cohort_a : GroupInfo (Reply Z string) :=
  {| common_start := 100; common_end := 200; responses := [[a1; a2]] |}.

(** The cohort of a cluster that claims [[1000, 21000]]. *)
Definition cohort_1000_21000 : GroupInfo (Reply Z string) :=
  {| common_start := 1000; common_end := 21000; responses := [[r1; r2; r3]] |}.

(** A cohort that claims [[0, 40000]], and two of its members. *)
Definition m1 := responder 1 "bitcoin" 0 40000 (answers "X" 50).
Definition m2 := responder 2 "bitcoin" 0 40000 (answers "X" 60).


(** The default configuration with chunks of two responders, with no
    chunking at all (a chunk size of zero) and with a negative chunk
    size. *)
Definition config_chunks_of_2 : ValidatorConfig :=
  {| benchmark_timeout := 600;
     benchmark_cluster_size := 1;
     benchmark_query_chunk_size := 2;
     benchmark_query_diff := 10000 |}.
Definition config_chunks_of_0 : ValidatorConfig :=
  {| benchmark_timeout := 600;
     benchmark_cluster_size := 1;
     benchmark_query_chunk_size := 0;
     benchmark_query_diff := 10000 |}.
Definition config_chunks_negative : ValidatorConfig :=
  {| benchmark_timeout := 600;
     benchmark_cluster_size := 1;
     benchmark_query_chunk_size := -3;
     benchmark_query_diff := 10000 |}.






(** Five responders of a network, with one claimed interval. *)
Definition five : list (Item (Reply Z string)) :=
  (λ u, responder u "litecoin" 0 40000 (answers "Z" 70)) <$> [11; 12; 13; 14; 15]%Z.

End Bench.


(** ** The remote configuration ([neurons/remote_config.py])

    [RemoteConfig.load_remote_config] talks to the clock, to the HTTP
    server of the configuration and to the file system.  One pass through
    the body of its [try] is summed up by an [Attempt]; the clock and the
    server are the collaborators [ConfigExternals]. *)

Definition MAX_RETRIES : nat := 10.
Definition RETRY_INTERVAL : Z := 5.

Section RemoteConfig.
Context {Json Time : Type}.

(** What one pass through the [try] of lines 54-66 comes to. *)
Inductive Attempt : Type :=
  | RequestFails
      (* a [requests.exceptions.RequestException] is raised *)
  | OtherFails
      (* another exception is raised before [config_cache] is assigned *)
  | Fetched (json : option Json) (written : bool).
      (* [response.json()] gave [json] ([None] for a JSON null); the file
         was then written, or writing it raised *)

(** What the outside sees of a call. *)
Inductive ConfigEvent : Type :=
  | Requested (url : string)
  | Slept (seconds : Z).

(** The attributes of [RemoteConfig] that [load_remote_config] reads and
    writes. *)
Record RemoteConfig : Type := mkRemoteConfig {
  config_url : option string;
  config_cache : option Json;
  last_update_time : Time;
}.

(** - [cfg_time] is [time.time()];
    - [cfg_due current last] is [current - last >= UPDATE_INTERVAL];
    - [cfg_get url] is one pass through the [try];
    - [cfg_sleep seconds] is [time.sleep(seconds)]. *)
Class ConfigExternals : Type := {
  CfgWorld : Type;
  cfg_time : CfgWorld → Time * CfgWorld;
  cfg_due : Time → Time → bool;
  cfg_get : string → CfgWorld → Attempt * CfgWorld;
  cfg_sleep : Z → CfgWorld → CfgWorld;
}.

Context `{CE : ConfigExternals}.

(** lines 53-75: the loop [while retries < MAX_RETRIES], by recursion on
    [remaining = MAX_RETRIES - retries]. *)
Fixpoint fetch_loop (remaining : nat) (url : string) (current_time : Time)
    (self : RemoteConfig) (w : CfgWorld) (log : list ConfigEvent)
    : RemoteConfig * CfgWorld * list ConfigEvent :=
  match remaining with
  | 0 => (self, w, log)
  | S remaining' =>
      let '(attempt, w) := cfg_get url w in
      let log := log ++ [Requested url] in
      match attempt with
      | Fetched json true =>
          ({| config_url := config_url self;
              config_cache := json;
              last_update_time := current_time |}, w, log)
      | Fetched json false =>
          ({| config_url := config_url self;
              config_cache := json;
              last_update_time := last_update_time self |}, w, log)
      | OtherFails => (self, w, log)
      | RequestFails =>
          match remaining' with
          | 0 => fetch_loop remaining' url current_time self w log
          | S _ =>
              fetch_loop remaining' url current_time self
                         (cfg_sleep RETRY_INTERVAL w)
                         (log ++ [Slept RETRY_INTERVAL])
          end
      end
  end.

(** lines 46-75 *)
Definition load_remote_config (self : RemoteConfig) (w : CfgWorld)
    (log : list ConfigEvent) : RemoteConfig * CfgWorld * list ConfigEvent :=
  match config_url self with
  | None => (self, w, log)
  | Some url =>
      let '(current_time, w) := cfg_time w in
      if cfg_due current_time (last_update_time self)
         || (if config_cache self is None then true else false)
      then fetch_loop MAX_RETRIES url current_time self w log
      else (self, w, log)
  end.

End RemoteConfig.

(** The requests of a call that makes [k] of them: a sleep of
    [RETRY_INTERVAL] seconds between two requests, none after the last. *)
Definition request_trace (k : nat) (url : string) : list ConfigEvent :=
  match k with
  | 0 => []
  | S k' =>
      concat (replicate k' [Requested url; Slept RETRY_INTERVAL])
      ++ [Requested url]
  end.

(** A server played from a script: the world is the clock and the
    attempts still to come; when the script is over every request
    fails. *)
Module ConfigBench.

Definition scripted_get (url : string) (w : Z * list (@Attempt string))
    : @Attempt string * (Z * list (@Attempt string)) :=
  match w.2 with
  | [] => (RequestFails, w)
  | a :: rest => (a, (w.1, rest))
  end.

#[global] Instance externals : @ConfigExternals string Z := {|
  CfgWorld := Z * list (@Attempt string);
  cfg_time := λ w, (w.1, w);
  cfg_due := λ current last, bool_decide (3600 ≤ current - last)%Z;
  cfg_get := scripted_get;
  cfg_sleep := λ seconds w, ((w.1 + seconds)%Z, w.2);
|}.

(** A server that is down: every request fails. *)
Definition down_externals : @ConfigExternals string Z := {|
  CfgWorld := Z;
  cfg_time := λ w, (w, w);
  cfg_due := λ current last, bool_decide (3600 ≤ current - last)%Z;
  cfg_get := λ _ w, (RequestFails, w);
  cfg_sleep := λ seconds w, (w + seconds)%Z;
|}.

(** A configuration loaded an hour and a half before the clock of the
    worlds below. *)
Definition stale : @RemoteConfig string Z :=
  {| config_url := Some "https://cfg/validator.json";
     config_cache := Some "{old}";
     last_update_time := 4600%Z |}.

(** The server answers but the file cannot be written. *)
Definition disk_full : Z * list (@Attempt string) :=
  (10000%Z, [Fetched (Some "{new}") false]).

End ConfigBench.

(** ** The request filters of the miner ([neurons/miners/miner.py])

    The closures [blacklist_discovery], [blacklist_execute_query] and
    [priority_execute_query] of [main] read the metagraph and the
    configuration; [is_query_only] comes from a module that is not part of
    these sources and is a parameter. *)

Section Miner.
Context {Stake : Type}.

(** The attributes of the synapse that the filters read
    ([synapse.dendrite.hotkey], [synapse.network], [synapse.model_type],
    [synapse.query]); each may be [None]. *)
Record MinerQuery : Type := mkMinerQuery {
  dendrite_hotkey : option string;
  mq_network : option string;
  mq_model_type : option string;
  mq_query : option string;
}.

(** [metagraph.hotkeys], [metagraph.S], [config.blockchain] and
    [config.model_type]. *)
Record MinerContext : Type := mkMinerContext {
  mc_hotkeys : list string;
  mc_stakes : list Stake;
  mc_blockchain : option string;
  mc_model_type : option string;
}.

(** [synapse.dendrite.hotkey in metagraph.hotkeys] *)
Definition hotkey_registered (ctx : MinerContext) (synapse : MinerQuery) : bool :=
  match dendrite_hotkey synapse with
  | Some h => bool_decide (h ∈ mc_hotkeys ctx)
  | None => false
  end.

(** lines 174-180 *)
Definition blacklist_discovery (ctx : MinerContext) (synapse : MinerQuery)
    : bool * string :=
  if negb (hotkey_registered ctx synapse) then (true, "Unrecognized hotkey")
  else (false, "All ok").

(** lines 182-209 *)
Definition blacklist_execute_query (is_query_only : option string → bool)
    (ctx : MinerContext) (synapse : MinerQuery) : bool * string :=
  if negb (hotkey_registered ctx synapse) then (true, "Unrecognized hotkey")
  else if negb (bool_decide (mq_network synapse = mc_blockchain ctx))
  then (true, "Blockchain not supported.")
  else if negb (bool_decide (mq_model_type synapse = mc_model_type ctx))
  then (true, "Model type not supported.")
  else if negb (is_query_only (mq_query synapse))
  then (true, "Illegal cypher keywords.")
  else (false, "All ok").

(** [l.index(x)]: the first position of [x], [None] for [ValueError]. *)
Fixpoint index_of (x : string) (l : list string) : option nat :=
  match l with
  | [] => None
  | y :: l' => if decide (x = y) then Some 0 else S <$> index_of x l'
  end.

(** What a call of [priority_execute_query] comes to. *)
Inductive PriorityResult : Type :=
  | Priority (stake : Stake)
  | PriorityValueError          (* the hotkey is not in [metagraph.hotkeys] *)
  | PriorityIndexError.         (* [metagraph.S] is too short *)

(** lines 166-172 *)
Definition priority_execute_query (ctx : MinerContext) (synapse : MinerQuery)
    : PriorityResult :=
  match dendrite_hotkey synapse with
  | None => PriorityValueError
  | Some h =>
      match index_of h (mc_hotkeys ctx) with
      | None => PriorityValueError
      | Some caller_uid =>
          match mc_stakes ctx !! caller_uid with
          | None => PriorityIndexError
          | Some stake => Priority stake
          end
      end
  end.

End Miner.

Module MinerBench.

(** A metagraph of three uids, two of them under one hotkey. *)
Definition ctx : @MinerContext Z :=
  {| mc_hotkeys := ["alice"; "bob"; "bob"];
     mc_stakes := [10; 20; 30]%Z;
     mc_blockchain := Some "bitcoin";
     mc_model_type := Some "funds_flow" |}.

Definition only_return (q : option string) : bool :=
  bool_decide (q = Some "RETURN 1").

Definition good_query : MinerQuery :=
  {| dendrite_hotkey := Some "bob";
     mq_network := Some "bitcoin";
     mq_model_type := Some "funds_flow";
     mq_query := Some "RETURN 1" |}.

End MinerBench.

(** * Facts *)

(** ** Dictionaries *)

Section DictFacts.
Context {K V : Type} `{EqDecision K}.
Implicit Types (d : list (K * V)) (k : K) (f : option V → V).

Lemma dict_get_None k d : dict_get k d = None ↔ k ∉ d.*1.
Proof.
  induction d as [|[k' v] d IH]; simpl.
  - split; [intros _; apply not_elem_of_nil | done].
  - rewrite not_elem_of_cons. destruct (decide (k = k')) as [->|Hne].
    + split; [done | intros [? _]; done].
    + rewrite IH. tauto.
Qed.

Lemma dict_get_Some_elem k v d : dict_get k d = Some v → (k, v) ∈ d.
Proof.
  induction d as [|[k' v'] d IH]; simpl; [done|].
  destruct (decide (k = k')) as [->|Hne].
  - intros [= ->]. apply elem_of_cons; by left.
  - intros Hd. apply elem_of_cons; right; auto.
Qed.

(** Updating a key that is there changes its value in place. *)
Lemma dict_upd_in k f d :
  k ∈ d.*1 →
  ∃ d1 v d2, d = d1 ++ (k, v) :: d2 ∧ (k ∉ d1.*1) ∧ dict_get k d = Some v ∧
             dict_upd k f d = d1 ++ (k, f (Some v)) :: d2.
Proof.
  induction d as [|[k' v] d IH]; simpl.
  - intros Hin; by apply elem_of_nil in Hin.
  - intros Hin. destruct (decide (k = k')) as [->|Hne].
    + exists [], v, d. repeat split; auto. simpl. apply not_elem_of_nil.
    + apply elem_of_cons in Hin as [?|Hin]; [done|].
      destruct (IH Hin) as (d1 & v1 & d2 & -> & Hni & Hg & Hu).
      exists ((k', v) :: d1), v1, d2. rewrite Hu. repeat split; auto.
      simpl. rewrite not_elem_of_cons. done.
Qed.

(** Updating a key that is not there adds it at the end. *)
Lemma dict_upd_notin k f d :
  k ∉ d.*1 → dict_upd k f d = d ++ [(k, f None)].
Proof.
  induction d as [|[k' v] d IH]; simpl; [done|].
  rewrite not_elem_of_cons. intros [Hne Hni].
  destruct (decide (k = k')); [done|]. by rewrite IH.
Qed.

Lemma dict_upd_keys k f d :
  (dict_upd k f d).*1 = if decide (k ∈ d.*1) then d.*1 else d.*1 ++ [k].
Proof.
  destruct (decide (k ∈ d.*1)) as [Hin|Hni].
  - destruct (dict_upd_in k f d Hin) as (d1 & v & d2 & -> & _ & _ & ->).
    by rewrite !fmap_app.
  - rewrite dict_upd_notin by done. by rewrite fmap_app.
Qed.

Lemma dict_get_upd k k' f d :
  dict_get k' (dict_upd k f d) =
  if decide (k = k') then Some (f (dict_get k d)) else dict_get k' d.
Proof.
  induction d as [|[k1 v] d IH]; simpl.
  - repeat case_decide; simplify_eq; done.
  - destruct (decide (k = k1)) as [Heq|Hne]; simpl.
    + repeat case_decide; simplify_eq; done.
    + rewrite IH. repeat case_decide; simplify_eq; done.
Qed.

(** Every entry of the updated dictionary is an old one or the new one. *)
Lemma dict_upd_elem k f d k' v' :
  (k', v') ∈ dict_upd k f d →
  (k', v') ∈ d ∨ (k' = k ∧ v' = f (dict_get k d)).
Proof.
  destruct (decide (k ∈ d.*1)) as [Hin|Hni].
  - destruct (dict_upd_in k f d Hin) as (d1 & v & d2 & Hd & _ & Hg & ->).
    rewrite Hg, Hd. rewrite !elem_of_app, !elem_of_cons.
    intros [?|[[= -> ->]|?]]; auto.
  - rewrite dict_upd_notin by done. apply dict_get_None in Hni as ->.
    rewrite elem_of_app, list_elem_of_singleton. intros [?|[= -> ->]]; auto.
Qed.

Lemma dict_upd_NoDup k f d : NoDup d.*1 → NoDup (dict_upd k f d).*1.
Proof.
  intros Hnd. rewrite dict_upd_keys. case_decide; [done|].
  apply NoDup_app. split; [done|]. split.
  - intros x Hx ->%list_elem_of_singleton. done.
  - apply NoDup_singleton.
Qed.

End DictFacts.

(** ** [Counter] and [most_common] *)

Section CounterFacts.
Context {K : Type} `{EqDecision K}.
Implicit Types (l : list K) (c : list (K * nat)) (k x : K).

Lemma Counter_snoc l k :
  Counter (l ++ [k]) = dict_upd k (λ o, S (default 0 o)) (Counter l).
Proof. unfold Counter. by rewrite foldl_app. Qed.

Lemma occurrences_snoc x l k :
  occurrences x (l ++ [k]) =
  occurrences x l + (if decide (x = k) then 1 else 0).
Proof.
  unfold occurrences. rewrite filter_app, length_app. f_equal.
  rewrite filter_cons, filter_nil. by case_decide.
Qed.

Lemma occurrences_notin x l : x ∉ l → occurrences x l = 0.
Proof.
  unfold occurrences. induction l as [|y l IH]; [done|].
  rewrite not_elem_of_cons. intros [Hne Hni].
  rewrite filter_cons. case_decide; [done | auto].
Qed.

Lemma occurrences_in x l : x ∈ l → 0 < occurrences x l.
Proof.
  unfold occurrences. induction l as [|y l IH]; [by intros ?%elem_of_nil|].
  rewrite filter_cons. intros Hin. destruct (decide (x = y)); simpl; [lia|].
  apply elem_of_cons in Hin as [?|?]; [done | auto].
Qed.

(** The counter maps each element of the list to its number of
    occurrences, and holds nothing else. *)
Lemma Counter_get l k :
  dict_get k (Counter l) =
  if decide (k ∈ l) then Some (occurrences k l) else None.
Proof.
  induction l as [|a l IH] using rev_ind.
  - rewrite decide_False by apply not_elem_of_nil. done.
  - rewrite Counter_snoc, dict_get_upd, occurrences_snoc.
    destruct (decide (a = k)) as [->|Hne].
    + rewrite (decide_True (P := k ∈ l ++ [k])) by set_solver.
      rewrite (decide_True (P := k = k)) by done.
      destruct (decide (k ∈ l)); rewrite IH; simpl; f_equal; [lia|].
      rewrite occurrences_notin by done. done.
    + rewrite (decide_False (P := k = a)) by done. rewrite Nat.add_0_r.
      rewrite IH. destruct (decide (k ∈ l)).
      * rewrite decide_True by (apply elem_of_app; by left). done.
      * rewrite decide_False; [done|].
        rewrite elem_of_app, list_elem_of_singleton. intros [?|?]; congruence.
Qed.

Lemma Counter_keys l k : k ∈ (Counter l).*1 ↔ k ∈ l.
Proof.
  destruct (decide (k ∈ (Counter l).*1)) as [Hin|Hni].
  - split; [intros _|done]. destruct (decide (k ∈ l)) as [|Hni]; [done|].
    pose proof (Counter_get l k) as Hg. rewrite decide_False in Hg by done.
    apply dict_get_None in Hg. done.
  - split; [done|]. intros Hin. apply dict_get_None in Hni.
    rewrite Counter_get, decide_True in Hni by done. done.
Qed.

Lemma Counter_NoDup l : NoDup (Counter l).*1.
Proof.
  induction l as [|a l IH] using rev_ind; [apply NoDup_nil_2|].
  rewrite Counter_snoc. by apply dict_upd_NoDup.
Qed.

(** An entry at a key that occurs once among the keys is the one that
    [dict_get] finds. *)
Lemma dict_elem_get {V} (d : list (K * V)) k v :
  NoDup d.*1 → (k, v) ∈ d → dict_get k d = Some v.
Proof.
  induction d as [|[k' v'] d IH]; simpl; [by intros _ ?%elem_of_nil|].
  rewrite NoDup_cons. intros [Hni Hnd] [[= -> ->]|Hin]%elem_of_cons.
  - by rewrite decide_True.
  - rewrite decide_False; [auto|]. intros ->. apply Hni.
    apply list_elem_of_fmap. by exists (k', v).
Qed.

Lemma Counter_elem l k n : (k, n) ∈ Counter l → k ∈ l ∧ n = occurrences k l.
Proof.
  intros Hin. apply dict_elem_get in Hin; [|apply Counter_NoDup].
  rewrite Counter_get in Hin. case_decide; by simplify_eq.
Qed.

(** The keys of the counter stand in the order of first appearance. *)
Lemma Counter_order l ks1 k ks2 :
  (Counter l).*1 = ks1 ++ k :: ks2 →
  ∃ l1 l2, l = l1 ++ k :: l2 ∧ (k ∉ l1) ∧ ∀ x, x ∈ ks2 → x ∉ l1.
Proof.
  revert ks1 k ks2. induction l as [|a l IH] using rev_ind; intros ks1 k ks2.
  - simpl. intros Heq. by destruct ks1.
  - rewrite Counter_snoc, dict_upd_keys. case_decide as Hin.
    + intros Heq. destruct (IH _ _ _ Heq) as (l1 & l2 & -> & Hk & Hks).
      exists l1, (l2 ++ [a]). by rewrite <- app_assoc.
    + rewrite Counter_keys in Hin.
      destruct ks2 as [|y ks2 _] using rev_ind.
      * intros [Hks ->]%app_inj_tail. exists l, []. split; [done|].
        split; [done|]. by intros x ?%elem_of_nil.
      * rewrite app_comm_cons, app_assoc. intros [Heq ->]%app_inj_tail.
        destruct (IH _ _ _ Heq) as (l1 & l2 & -> & Hk & Hks).
        exists l1, (l2 ++ [y]). rewrite <- app_assoc. split; [done|].
        split; [done|]. intros x [Hx| ->%list_elem_of_singleton]%elem_of_app;
          [auto|]. intros Hy. apply Hin. apply elem_of_app. by left.
Qed.

Lemma max_by_count_cons (best x : K * nat) c :
  max_by_count best (x :: c) =
  max_by_count (if decide (best.2 < x.2) then x else best) c.
Proof. reflexivity. Qed.

(** [max] returns the first of the entries with the greatest count. *)
Lemma max_by_count_first (best : K * nat) c :
  ∃ c1 c2, best :: c = c1 ++ max_by_count best c :: c2 ∧
    (∀ y, y ∈ c1 → y.2 < (max_by_count best c).2) ∧
    (∀ y, y ∈ c2 → y.2 ≤ (max_by_count best c).2).
Proof.
  revert best. induction c as [|x c IH]; intros best.
  - exists [], []. simpl. split; [done|]. split; by intros y ?%elem_of_nil.
  - rewrite max_by_count_cons. case_decide as Hlt.
    + destruct (IH x) as (c1 & c2 & Heq & H1 & H2).
      set (M := max_by_count x c) in *.
      exists (best :: c1), c2. split; [by rewrite Heq|]. split; [|done].
      intros y [->|Hy]%elem_of_cons; [|auto].
      destruct c1 as [|z c1]; injection Heq as Hx Hc.
      * by rewrite <- Hx.
      * subst z. specialize (H1 x ltac:(by left)). lia.
    + destruct (IH best) as (c1 & c2 & Heq & H1 & H2).
      set (M := max_by_count best c) in *.
      destruct c1 as [|z c1]; injection Heq as Hx Hc.
      * exists [], (x :: c). rewrite <- Hx. split; [done|].
        split; [by intros y ?%elem_of_nil|].
        intros y [->|Hy]%elem_of_cons; [lia|]. rewrite Hx. apply H2.
        by rewrite <- Hc.
      * subst z. exists (best :: x :: c1), c2. split; [by rewrite Hc|].
        split; [|done].
        intros y [->|[->|Hy]%elem_of_cons]%elem_of_cons.
        -- apply H1. by left.
        -- specialize (H1 best ltac:(by left)). lia.
        -- apply H1. by right.
Qed.

(** What [Counter(l).most_common(1)[0]] is, for a list that is not empty:
    an element of the greatest number of occurrences, and among those the
    one that is met first. *)
Lemma most_common_spec l :
  l ≠ [] →
  ∃ m, most_common_1 (Counter l) = [(m, occurrences m l)] ∧
       m ∈ l ∧
       (∀ x, occurrences x l ≤ occurrences m l) ∧
       (∀ x, x ∈ l → occurrences x l = occurrences m l →
             first_seen_before m x l).
Proof.
  intros Hne. destruct (Counter l) as [|e c] eqn:HC.
  { destruct l as [|a l]; [done|]. pose proof (Counter_keys (a :: l) a) as Hk.
    rewrite HC in Hk. exfalso. eapply elem_of_nil, Hk. by left. }
  simpl. destruct (max_by_count_first e c) as (c1 & c2 & Heq & H1 & H2).
  destruct (max_by_count e c) as [m n] eqn:Hm. simpl in *.
  assert ((m, n) ∈ Counter l) as Hin.
  { rewrite HC, Heq. apply elem_of_app; right; by left. }
  apply Counter_elem in Hin as [Hml ->].
  assert (∀ x, x ∈ l → (x, occurrences x l) ∈ Counter l) as Hall.
  { intros x Hx. apply dict_get_Some_elem. by rewrite Counter_get, decide_True. }
  exists m. split; [done|]. split; [done|]. split.
  - intros x. destruct (decide (x ∈ l)) as [Hx|Hx].
    + specialize (Hall x Hx). rewrite HC, Heq in Hall.
      apply elem_of_app in Hall as [Hx1|[[= -> _]|Hx2]%elem_of_cons].
      * apply H1 in Hx1. simpl in Hx1. lia.
      * done.
      * by apply H2 in Hx2.
    + rewrite occurrences_notin by done. lia.
  - intros x Hx Htie.
    assert ((Counter l).*1 = c1.*1 ++ m :: c2.*1) as Hkeys.
    { rewrite HC, Heq. by rewrite fmap_app. }
    destruct (Counter_order _ _ _ _ Hkeys) as (l1 & l2 & Hl & Hm1 & Hrest).
    exists l1, l2. split; [done|]. split; [done|].
    specialize (Hall x Hx). rewrite HC, Heq in Hall.
    apply elem_of_app in Hall as [Hx1|[[= -> _]|Hx2]%elem_of_cons].
    + apply H1 in Hx1. simpl in Hx1. lia.
    + done.
    + apply Hrest. apply list_elem_of_fmap. by exists (x, occurrences x l).
Qed.

End CounterFacts.

(** ** The monad and the loops *)

Section EngineFacts.
Context {Latency Output Axon : Type} `{EqDecision Output}.
Context `{E : Externals Latency Output Axon}.

Lemma bind_Ok {A B} (m : M A) (k : A → M B) st b st' :
  bind m k st = (Ok b, st') →
  ∃ a st1, m st = (Ok a, st1) ∧ k a st1 = (Ok b, st').
Proof.
  unfold bind. destruct (m st) as [[a|e] st1]; [eauto | done].
Qed.

Lemma bind_eq {A B} (m : M A) (k : A → M B) st a st1 :
  m st = (Ok a, st1) → bind m k st = k a st1.
Proof. unfold bind. by intros ->. Qed.

Lemma bind_raised {A B} (m : M A) (k : A → M B) st e st1 :
  m st = (Raised e, st1) → bind m k st = (Raised e, st1).
Proof. unfold bind. by intros ->. Qed.

(** A property of the accumulator and the state that every iteration
    keeps holds when the loop ends. *)
Lemma for_each_inv {A S} (I : S → St → Prop) (body : S → A → M S) l :
  (∀ acc x st acc' st',
     x ∈ l → I acc st → body acc x st = (Ok acc', st') → I acc' st') →
  ∀ acc st acc' st',
    I acc st → for_each body l acc st = (Ok acc', st') → I acc' st'.
Proof.
  induction l as [|x l IH]; intros Hbody acc st acc' st' HI; simpl.
  - by intros [= <- <-].
  - intros (acc1 & st1 & Hx & Hrest)%bind_Ok.
    eapply IH; [| |exact Hrest].
    + intros ? y ? ? ? Hy. apply Hbody. by right.
    + eapply Hbody; [by left|exact HI|exact Hx].
Qed.

(** A loop whose iterations cannot raise cannot raise. *)
Lemma for_each_total {A S} (body : S → A → M S) l :
  (∀ acc x st, x ∈ l → ∃ acc' st', body acc x st = (Ok acc', st')) →
  ∀ acc st, ∃ acc' st', for_each body l acc st = (Ok acc', st').
Proof.
  induction l as [|x l IH]; intros Hbody acc st; simpl.
  - by eexists _, _.
  - destruct (Hbody acc x st ltac:(by left)) as (acc1 & st1 & Hx).
    rewrite (bind_eq _ _ _ _ _ Hx). apply IH.
    intros ? y ? Hy. apply Hbody. by right.
Qed.

(** ** The probe executor *)

(** [run_benchmark] never raises, and its triple is whole or empty. *)
Lemma run_benchmark_spec cfg response uid q st :
  ∃ t st', run_benchmark cfg response uid q st = (Ok t, st') ∧
    probes st' = probes st ∧
    (t = failure ∨
     ∃ u lat o, uid = [u] ∧ t = (Some u, Some lat, Some o)).
Proof.
  unfold run_benchmark, try_except, bind, uid_value, dendrite_query, ret, raise.
  destruct uid as [|u [|u' uid]]; simpl.
  - eexists _, _; split; [done|]. split; [done|]. by left.
  - destruct (ext_query _ _ _ _ _) as [[| |[o|] t] w]; simpl;
      eexists _, _; (split; [done|]); (split; [done|]); eauto 10.
  - eexists _, _; split; [done|]. split; [done|]. by left.
Qed.

Lemma for_each_cons {A S} (body : S → A → M S) x l acc :
  for_each body (x :: l) acc = bind (body acc x) (for_each body l).
Proof. reflexivity. Qed.

Lemma execute_step_spec cfg q acc response uid st :
  ∃ t st',
    execute_step cfg q acc (response, uid) st = (Ok (acc ++ [t]), st') ∧
    probes st' = probes st ++ [probe_of q (response, uid) t] ∧
    outcome_of (response, uid) t.
Proof.
  destruct (run_benchmark_spec cfg response uid q st) as (t & st1 & Hr & Hp & Ht).
  exists t, (mkSt (world st1) (probes st1 ++ [mkProbe (response, uid) q t])).
  unfold execute_step. rewrite (bind_eq _ _ _ _ _ Hr). simpl.
  split; [done|]. split; [by rewrite Hp | exact Ht].
Qed.

Lemma execute_loop cfg q responses acc st :
  ∃ ts st',
    for_each (execute_step cfg q) responses acc st = (Ok (acc ++ ts), st') ∧
    probes st' = probes st ++ zip_with (probe_of q) responses ts ∧
    Forall2 outcome_of responses ts.
Proof.
  revert acc st. induction responses as [|[response uid] l IH]; intros acc st.
  - exists [], st. simpl. rewrite !app_nil_r. split; [done|]. split; [done|].
    constructor.
  - destruct (execute_step_spec cfg q acc response uid st)
      as (t & st1 & Hs & Hp & Ht).
    destruct (IH (acc ++ [t]) st1) as (ts & st' & Hl & Hp' & Hts).
    exists (t :: ts), st'. rewrite for_each_cons, (bind_eq _ _ _ _ _ Hs), Hl.
    rewrite <- app_assoc. split; [done|].
    rewrite Hp', Hp, <- app_assoc. split; [done|]. by constructor.
Qed.

(** [execute_benchmarks] never raises: it probes every member of the chunk
    once, in order, with the query it was given, and keeps the triples
    whose result is there. *)
Lemma execute_benchmarks_spec cfg responses q st :
  ∃ ts st',
    execute_benchmarks cfg responses q st = (Ok (List.filter is_valid ts), st') ∧
    probes st' = probes st ++ zip_with (probe_of q) responses ts ∧
    Forall2 outcome_of responses ts.
Proof.
  destruct (execute_loop cfg q responses [] st) as (ts & st' & Hl & Hp & Hts).
  exists ts, st'. unfold execute_benchmarks. rewrite (bind_eq _ _ _ _ _ Hl).
  done.
Qed.



End EngineFacts.

(** ** The consensus scorer *)

Section ScorerFacts.
Context {Latency Output : Type} `{EqDecision Output}.
Implicit Types (results : gmap (option Z) (Verdict Latency)).
Implicit Types (l : list (Triple Latency Output)).

(** The loop of lines 42-43, for the majority value [m]. *)
Lemma score_unfold results l m n :
  l ≠ [] →
  most_common_1 (Counter ((λ t, t.2) <$> l)) = [(m, n)] →
  score results l =
  foldl (λ results '(uid_value, response_time, result),
           <[uid_value := (response_time, bool_decide (result = m))]> results)
        results l.
Proof.
  intros Hne Hm. unfold score. destruct l as [|t l]; [done|]. by rewrite Hm.
Qed.

Lemma assign_lookup_notin (m : option Output) l results k :
  k ∉ (λ t, t.1.1) <$> l →
  foldl (λ results '(uid_value, response_time, result),
           <[uid_value := (response_time, bool_decide (result = m))]> results)
        results l !! k = results !! k.
Proof.
  revert results. induction l as [|[[u lat] r] l IH]; intros results; [done|].
  rewrite fmap_cons, not_elem_of_cons. simpl. intros [Hne Hni].
  rewrite IH by done. by rewrite lookup_insert_ne.
Qed.

(** The verdict of an outcome that no later outcome of the chunk
    overwrites. *)
Lemma assign_lookup (m : option Output) l1 u lat r l2 results :
  u ∉ (λ t, t.1.1) <$> l2 →
  foldl (λ results '(uid_value, response_time, result),
           <[uid_value := (response_time, bool_decide (result = m))]> results)
        results (l1 ++ (u, lat, r) :: l2) !! u
  = Some (lat, bool_decide (r = m)).
Proof.
  intros Hni. rewrite foldl_app. simpl.
  rewrite assign_lookup_notin by done. by rewrite lookup_insert_eq.
Qed.



(** The scorer on the valid outcomes of a chunk: the majority value and
    the verdicts. *)
Lemma score_majority results (raw : list (Triple Latency Output)) :
  let valid := List.filter is_valid raw in
  let values := (λ t : Triple Latency Output, t.2) <$> valid in
  valid ≠ [] →
  ∃ m, most_common_1 (Counter values) = [(m, occurrences m values)] ∧
       m ∈ values ∧
       (∀ x, occurrences x values ≤ occurrences m values) ∧
       (∀ x, x ∈ values → occurrences x values = occurrences m values →
             first_seen_before m x values) ∧
       (∀ l1 u lat r l2,
          valid = l1 ++ (u, lat, r) :: l2 →
          u ∉ (λ t, t.1.1) <$> l2 →
          score results valid !! u = Some (lat, bool_decide (r = m))).
Proof.
  intros valid values Hne.
  assert (values ≠ []) as Hv.
  { unfold values. destruct valid; [done|]. done. }
  destruct (most_common_spec values Hv) as (m & Hm & Hin & Hmax & Htie).
  exists m. repeat split; try done.
  intros l1 u lat r l2 Heq Hni.
  rewrite (score_unfold _ _ m (occurrences m values)) by done.
  rewrite Heq. by apply assign_lookup.
Qed.

End ScorerFacts.

(** ** The query synthesizer and the scoring of a chunk *)

Section ChunkFacts.
Context {Latency Output Axon : Type} `{EqDecision Output}.
Context `{E : Externals Latency Output Axon}.
Implicit Types (results : gmap (option Z) (Verdict Latency)).
Implicit Types (info : GroupInfo Axon) (chunk : list (Item Axon)).













End ChunkFacts.

(** ** The pass: every verdict is backed by a successful probe *)

Section PassFacts.
Context {Latency Output Axon : Type} `{EqDecision Output}.
Context `{E : Externals Latency Output Axon}.
Implicit Types (results : gmap (option Z) (Verdict Latency)).







End PassFacts.

(** ** The cohort builder *)

Section ListFacts.

(** The chunks of a list, put end to end, are the list. *)
Lemma concat_slices {A} (n : nat) (l : list A) k :
  concat ((λ i, take n (drop i l)) <$> ((λ j, j * n) <$> seq 0 k))
  = take (k * n) l.
Proof.
  induction k as [|k IH]; [done|].
  rewrite seq_S, !fmap_app, concat_app, IH. simpl. rewrite app_nil_r.
  rewrite take_take_drop. f_equal. lia.
Qed.

Lemma concat_chunks {A} (n : nat) (l : list A) :
  0 < n →
  concat ((λ i, take n (drop i l)) <$> range_step (length l) n) = l.
Proof.
  intros Hn. unfold range_step. rewrite concat_slices. apply take_ge.
  pose proof (Nat.div_mod (length l + n - 1) n ltac:(lia)) as Hdm.
  pose proof (Nat.mod_upper_bound (length l + n - 1) n ltac:(lia)) as Hlt.
  change (Nat.div ?a ?b) with (a `div` b) in Hdm.
  change (Nat.modulo ?a ?b) with (a `mod` b) in *. nia.
Qed.

Lemma elem_of_slices {A} (n : nat) (l : list A) (idx : list nat) x :
  x ∈ concat ((λ i, take n (drop i l)) <$> idx) → x ∈ l.
Proof.
  induction idx as [|i idx IH]; simpl; [by intros ?%elem_of_nil|].
  intros [Hx|Hx]%elem_of_app; [|auto].
  by apply (subseteq_drop i l), (subseteq_take n (drop i l)).
Qed.

Lemma foldl_min_spec (l : list Z) (x : Z) :
  foldl Z.min x l ∈ x :: l ∧ ∀ y, y ∈ x :: l → (foldl Z.min x l ≤ y)%Z.
Proof.
  revert x. induction l as [|z l IH]; intros x; simpl.
  - split; [by left|]. intros y ->%list_elem_of_singleton. lia.
  - destruct (IH (x `min` z)%Z) as [Hin Hle]. split.
    + apply elem_of_cons in Hin as [->|Hin]; [|by do 2 right].
      destruct (Z.min_spec x z) as [[_ ->]|[_ ->]]; [by left|right; by left].
    + intros y Hy. assert (foldl Z.min (x `min` z)%Z l ≤ x `min` z)%Z as Hm
        by (apply Hle; by left).
      apply elem_of_cons in Hy as [->|[->|Hy]%elem_of_cons]; [lia|lia|].
      apply Hle. by right.
Qed.

End ListFacts.

Section GroupFacts.
Context {K A : Type} `{EqDecision K}.
Implicit Types (kvs : list (K * A)) (d : list (K * list A)).

Lemma group_by_key_snoc kvs k x :
  group_by_key (kvs ++ [(k, x)]) = setdefault_append k x (group_by_key kvs).
Proof. unfold group_by_key. by rewrite foldl_app. Qed.

(** A group is not empty and holds only values that came with its key. *)
Lemma group_by_key_elem kvs k v :
  (k, v) ∈ group_by_key kvs → v ≠ [] ∧ ∀ x, x ∈ v → (k, x) ∈ kvs.
Proof.
  revert k v. induction kvs as [|[k0 x0] kvs IH] using rev_ind; intros k v.
  - by intros ?%elem_of_nil.
  - rewrite group_by_key_snoc. unfold setdefault_append.
    intros [Hin|[-> ->]]%dict_upd_elem.
    + destruct (IH _ _ Hin) as [Hne Hv]. split; [done|].
      intros x Hx. apply elem_of_app. left. auto.
    + split; [by destruct (default [] _)|].
      intros x [Hx| ->%list_elem_of_singleton]%elem_of_app.
      * apply elem_of_app. left.
        destruct (dict_get k0 (group_by_key kvs)) as [v0|] eqn:Hg;
          [|by apply elem_of_nil in Hx].
        apply dict_get_Some_elem in Hg. by apply (IH _ _ Hg).
      * apply elem_of_app. right. by left.
Qed.


(** The group of a key holds the values that came with it, in order. *)
Lemma group_by_key_get kvs k :
  dict_get k (group_by_key kvs) =
  let v := (filter (λ kv, kv.1 = k) kvs).*2 in
  if decide (v = []) then None else Some v.
Proof.
  induction kvs as [|[k0 x0] kvs IH] using rev_ind; [done|].
  rewrite group_by_key_snoc. unfold setdefault_append.
  rewrite dict_get_upd, filter_app, fmap_app, filter_cons, filter_nil. simpl.
  destruct (decide (k0 = k)) as [->|Hne].
  - rewrite IH. simpl. rewrite (decide_False (P := _ ++ [x0] = []))
      by (by destruct ((filter _ kvs).*2)).
    f_equal. by case_decide as Hv; [rewrite Hv|].
  - rewrite IH. simpl. by rewrite app_nil_r.
Qed.

End GroupFacts.

Section GroupFilterFacts.
Context {K A : Type} `{EqDecision K}.




End GroupFilterFacts.

Section CohortFacts.
Context {Latency Output Axon : Type} `{EqDecision Output}.
Context `{E : Externals Latency Output Axon}.
Implicit Types (group cluster items rs : list (Item Axon)).
Implicit Types (new_groups : list (string * list (Z * GroupInfo Axon))).

(** [random.shuffle] permutes. *)
Hypothesis shuffle_perm : ∀ l w, (ext_shuffle l w).1 ≡ₚ l.

Lemma shuffle_Ok group st :
  ∃ st', shuffle group st = (Ok (ext_shuffle group (world st)).1, st') ∧
         probes st' = probes st.
Proof.
  unfold shuffle. destruct (ext_shuffle _ _) as [g w]. by eexists.
Qed.

Lemma chunked_Ok {A} (chunk_size : Z) (l : list A) st chunks st' :
  chunked chunk_size l st = (Ok chunks, st') →
  st' = st ∧ (∀ x, x ∈ concat chunks → x ∈ l) ∧
  ((0 < chunk_size)%Z → concat chunks = l).
Proof.
  unfold chunked. case_decide as H0; [done|]. case_decide as Hneg.
  - intros [= <- <-]. split; [done|]. split; [|lia].
    by intros x ?%elem_of_nil.
  - intros [= <- <-]. split; [done|]. split.
    + intros x. apply elem_of_slices.
    + intros _. apply concat_chunks. lia.
Qed.

Lemma chunked_total {A} (chunk_size : Z) (l : list A) st :
  chunk_size ≠ 0%Z → ∃ chunks, chunked chunk_size l st = (Ok chunks, st).
Proof.
  intros Hne. unfold chunked. rewrite decide_False by done.
  case_decide; by eexists.
Qed.

Lemma py_min_Ok (l : list Z) st x st' :
  py_min l st = (Ok x, st') → st' = st ∧ is_minimum x l.
Proof.
  destruct l as [|y l]; [done|]. simpl. intros [= <- <-]. split; [done|].
  apply foldl_min_spec.
Qed.

Lemma py_min_total (l : list Z) st :
  l ≠ [] → ∃ x, py_min l st = (Ok x, st).
Proof. destruct l; [done|]. by eexists. Qed.

(** One iteration of the loop over the clusters adds the cohort of the
    (shuffled) cluster. *)
Lemma add_cohort_Ok chunk_size net new_groups label group st new_groups' st' :
  add_cohort chunk_size net new_groups (label, group) st = (Ok new_groups', st') →
  ∃ cluster info,
    cluster ≡ₚ group ∧
    cohort_of_cluster chunk_size cluster info ∧
    new_groups' =
      dict_upd net (λ o, dict_upd label (λ _, info) (default [] o)) new_groups.
Proof.
  unfold add_cohort.
  destruct (shuffle_Ok group st) as (st1 & Hs & _).
  rewrite (bind_eq _ _ _ _ _ Hs).
  intros (chunks & st2 & Hc & Hrest)%bind_Ok.
  apply bind_Ok in Hrest as (min_start & st3 & Hmin1 & Hrest).
  apply bind_Ok in Hrest as (min_end & st4 & Hmin2 & Hrest).
  injection Hrest as <- <-.
  apply chunked_Ok in Hc as (-> & Hsub & Hall).
  apply py_min_Ok in Hmin1 as [-> Hmin1]. apply py_min_Ok in Hmin2 as [-> Hmin2].
  eexists _, _. split; [apply shuffle_perm|]. split; [|done].
  unfold cohort_of_cluster, members, starts, ends. simpl.
  split; [done|]. split; [done|]. split.
  - erewrite list_fmap_ext; [exact Hmin1|]. by intros ? [? ?].
  - erewrite list_fmap_ext; [exact Hmin2|]. by intros ? [? ?].
Qed.

Lemma all_cohorts_upd new_groups (P : string → GroupInfo Axon → Prop) net label info :
  all_cohorts new_groups P → P net info →
  all_cohorts
    (dict_upd net (λ o, dict_upd label (λ _, info) (default [] o)) new_groups) P.
Proof.
  intros Hall HP net' mg' label' info' [Hin|[-> ->]]%dict_upd_elem Hin'.
  - by eapply Hall.
  - apply dict_upd_elem in Hin' as [Hin'|[-> ->]]; [|done].
    destruct (dict_get net new_groups) as [mg|] eqn:Hg;
      [|by apply elem_of_nil in Hin'].
    apply dict_get_Some_elem in Hg. by eapply Hall.
Qed.

Lemma by_label_elem (labels : list Z) items label group m :
  (label, group) ∈ by_label labels items → m ∈ group → m ∈ items.
Proof.
  intros Hin Hm. apply group_by_key_elem in Hin as [_ Hin].
  specialize (Hin m Hm). by apply elem_of_zip_r in Hin.
Qed.

Lemma add_network_cohorts cfg rs new_groups net items st new_groups' st' :
  (∀ m, m ∈ items → m ∈ rs ∧ network m.1 = net) →
  all_cohorts new_groups (cohort_ok rs (benchmark_query_chunk_size cfg)) →
  add_network cfg new_groups (net, items) st = (Ok new_groups', st') →
  all_cohorts new_groups' (cohort_ok rs (benchmark_query_chunk_size cfg)).
Proof.
  intros Hitems Hall. unfold add_network.
  destruct (ext_kmeans _ _) as [labels|]; [|by intros [= <- <-]].
  revert Hall.
  apply (for_each_inv (λ ng _, all_cohorts ng (cohort_ok rs _))).
  intros acc [label group] st1 acc' st1' Hin Hacc
    (cluster & info & Hperm & Hcoh & ->)%add_cohort_Ok.
  apply all_cohorts_upd; [done|]. exists cluster. split; [|exact Hcoh].
  intros m Hm. apply Hitems. eapply by_label_elem; [exact Hin|].
  by rewrite <- Hperm.
Qed.

Lemma by_network_group rs :
  by_network rs = group_by_key ((λ m : Item Axon, (network m.1, m)) <$> rs).
Proof.
  unfold by_network, group_by_key.
  cut (∀ d : list (string * list (Item Axon)),
         foldl (λ d '(resp, uid), setdefault_append (network resp) (resp, uid) d)
               d rs
         = foldl (λ d '(k, x), setdefault_append k x d)
                 d ((λ m : Item Axon, (network m.1, m)) <$> rs)); [by intros ->|].
  induction rs as [|[resp uid] rs IH]; intros d; [done|]. simpl. apply IH.
Qed.

Lemma by_network_elem rs net items m :
  (net, items) ∈ by_network rs → m ∈ items → m ∈ rs ∧ network m.1 = net.
Proof.
  rewrite by_network_group. intros [_ Hin]%group_by_key_elem Hm.
  apply Hin, list_elem_of_fmap in Hm as (m' & [= -> ->] & Hm'). done.
Qed.

(** Every cohort that [group_responses] returns is the cohort of a cluster
    of responders of its network. *)
Lemma group_responses_cohorts cfg rs st groups st' :
  group_responses cfg rs st = (Ok groups, st') →
  all_cohorts groups (cohort_ok rs (benchmark_query_chunk_size cfg)).
Proof.
  unfold group_responses.
  apply (for_each_inv (λ ng _, all_cohorts ng (cohort_ok rs _))).
  - intros acc [net items] st1 acc' st1' Hin Hacc. apply add_network_cohorts; [|done].
    intros m. by apply by_network_elem.
  - by intros ? ? ? ? ?%elem_of_nil.
Qed.

(** The cohort builder returns whenever the chunk size is not zero. *)
Lemma add_cohort_total chunk_size net new_groups label group st :
  chunk_size ≠ 0%Z → group ≠ [] →
  ∃ new_groups' st',
    add_cohort chunk_size net new_groups (label, group) st = (Ok new_groups', st').
Proof.
  intros Hcs Hne. unfold add_cohort.
  destruct (shuffle_Ok group st) as (st1 & Hs & _).
  rewrite (bind_eq _ _ _ _ _ Hs).
  set (g := (ext_shuffle group (world st)).1).
  assert (g ≠ []) as Hg.
  { intros Hnil. apply Hne. apply Permutation_nil_r.
    rewrite <- Hnil. symmetry. apply shuffle_perm. }
  destruct (chunked_total chunk_size g st1 Hcs) as [chunks Hc].
  rewrite (bind_eq _ _ _ _ _ Hc).
  destruct (py_min_total ((λ '(resp, _), start_block_height resp) <$> g) st1)
    as [min_start Hm1]; [by destruct g|].
  rewrite (bind_eq _ _ _ _ _ Hm1).
  destruct (py_min_total ((λ '(resp, _), block_height resp) <$> g) st1)
    as [min_end Hm2]; [by destruct g|].
  rewrite (bind_eq _ _ _ _ _ Hm2). by eexists _, _.
Qed.

Lemma group_responses_total cfg rs st :
  benchmark_query_chunk_size cfg ≠ 0%Z →
  ∃ groups st', group_responses cfg rs st = (Ok groups, st').
Proof.
  intros Hcs. unfold group_responses. apply for_each_total.
  intros acc [net items] st1 _. unfold add_network.
  destruct (ext_kmeans _ _) as [labels|]; [|by eexists _, _].
  apply for_each_total. intros acc2 [label group] st2 Hin.
  apply add_cohort_total; [done|]. by apply group_by_key_elem in Hin as [? _].
Qed.

End CohortFacts.

(** ** A network whose clustering fails *)

Section SkipFacts.
Context {Latency Output Axon : Type} `{EqDecision Output}.
Context `{E : Externals Latency Output Axon}.
Implicit Types (rs items : list (Item Axon)).








End SkipFacts.

(** ** The probes of a pass, chunk by chunk *)

Section SentFacts.
Context {Latency Output Axon : Type} `{EqDecision Output}.
Context `{E : Externals Latency Output Axon}.
Implicit Types (results : gmap (option Z) (Verdict Latency)).







(** [group_responses] sends no probe. *)
Lemma add_cohort_probes chunk_size net new_groups (entry : Z * list (Item Axon))
    st new_groups' st' :
  add_cohort chunk_size net new_groups entry st = (Ok new_groups', st') →
  probes st' = probes st.
Proof.
  destruct entry as [label group]. unfold add_cohort.
  intros (g & st1 & Hs & Hrest)%bind_Ok.
  apply bind_Ok in Hrest as (chunks & st2 & Hc & Hrest).
  apply bind_Ok in Hrest as (min_start & st3 & Hm1 & Hrest).
  apply bind_Ok in Hrest as (min_end & st4 & Hm2 & Hrest).
  injection Hrest as _ <-.
  apply py_min_Ok in Hm2 as [-> _]. apply py_min_Ok in Hm1 as [-> _].
  apply chunked_Ok in Hc as [-> _].
  unfold shuffle in Hs. destruct (ext_shuffle _ _) as [g' w].
  by injection Hs as _ <-.
Qed.

Lemma group_responses_probes cfg (rs : list (Item Axon)) st groups st' :
  group_responses cfg rs st = (Ok groups, st') → probes st' = probes st.
Proof.
  unfold group_responses. intros Hg.
  apply (for_each_inv (λ _ st1, probes st1 = probes st)) in Hg; [done| |done].
  intros acc [net items] st1 acc' st1' _ Hst1. unfold add_network.
  destruct (ext_kmeans _ _) as [labels|];
    [|unfold ret; by intros [= _ <-]].
  intros Hloop.
  apply (for_each_inv (λ _ st2, probes st2 = probes st)) in Hloop; [done| |done].
  intros acc2 entry st2 acc2' st2' _ Hst2 Hc.
  apply add_cohort_probes in Hc. congruence.
Qed.




End SentFacts.

(** ** The test bench keeps the laws of the collaborators *)


Lemma bench_shuffle_perm (l : list (Item (Reply Z string))) (w : nat) :
  (@ext_shuffle _ _ _ Bench.externals l w).1 ≡ₚ l.
Proof. reflexivity. Qed.

(** ** Who is probed *)

Section ProbedFacts.
Context {Latency Output Axon : Type} `{EqDecision Output}.
Context `{E : Externals Latency Output Axon}.

Hypothesis shuffle_perm : ∀ l w, (ext_shuffle l w).1 ≡ₚ l.





End ProbedFacts.

(** * The claims *)

(** C1.  For a chunk with at least one outcome that did not fail, the
    scorer takes as majority value the result with the most occurrences
    among the outcomes that did not fail, the first met in the order of
    the outcomes when several have that many, and every outcome that did
    not fail (and whose uid no later outcome of the chunk carries) gets
    the verdict made of its latency and of whether its result is the
    majority value.  On three responders returning "X", "X", "Y" in 50, 60
    and 9999 the majority is "X" and the verdicts are (50, true),
    (60, true) and (9999, false). *)
Theorem scorer_majority_and_verdicts :
  (∀ (Latency Output : Type) (Heq : EqDecision Output)
     (results : gmap (option Z) (Verdict Latency))
     (raw : list (Triple Latency Output)),
     let valid := List.filter is_valid raw in
     let values := (λ t : Triple Latency Output, t.2) <$> valid in
     valid ≠ [] →
     ∃ m, most_common_1 (Counter values) = [(m, occurrences m values)] ∧
          m ∈ values ∧
          (∀ x, occurrences x values ≤ occurrences m values) ∧
          (∀ x, x ∈ values → occurrences x values = occurrences m values →
                first_seen_before m x values) ∧
          (∀ l1 u lat r l2,
             valid = l1 ++ (u, lat, r) :: l2 →
             u ∉ (λ t, t.1.1) <$> l2 →
             score results valid !! u = Some (lat, bool_decide (r = m)))) ∧
  (∀ q st, ∃ st',
     execute_benchmarks default_config [Bench.r1; Bench.r2; Bench.r3] q st
       = (Ok Bench.raw123, st')) ∧
  most_common_1 (Counter ((λ t : Triple Z string, t.2) <$> Bench.raw123))
    = [(Some "X", 2)] ∧
  score ∅ Bench.raw123 !! Some 1%Z = Some (Some 50%Z, true) ∧
  score ∅ Bench.raw123 !! Some 2%Z = Some (Some 60%Z, true) ∧
  score ∅ Bench.raw123 !! Some 3%Z = Some (Some 9999%Z, false).
Proof.
  split; [|split; [|split; [|split; [|split]]]].
  - intros Latency Output Heq results raw. apply score_majority.
  - intros q [w ps]. eexists. reflexivity.
  - reflexivity.
  - reflexivity.
  - reflexivity.
  - reflexivity.
Qed.

Lemma scorer_majority_and_verdicts_witness :
  ∃ m : option string,
    most_common_1 (Counter ((λ t : Triple Z string, t.2) <$> Bench.raw123))
      = [(m, occurrences m ((λ t : Triple Z string, t.2) <$> Bench.raw123))] ∧
    score (∅ : gmap (option Z) (Verdict Z)) Bench.raw123 !! Some 3%Z
      = Some (Some 9999%Z, bool_decide (Some "Y" = m)).
Proof.
  destruct (proj1 scorer_majority_and_verdicts Z string _ ∅ Bench.raw123)
    as (m & Hm & _ & _ & _ & Hv); [simpl; discriminate|].
  exists m. split; [exact Hm|].
  apply (Hv [(Some 1, Some 50, Some "X"); (Some 2, Some 60, Some "X")]%Z
            (Some 3%Z) (Some 9999%Z) (Some "Y") []); [reflexivity|].
  simpl. apply not_elem_of_nil.
Defined.




(** C3.  The cohort builder returns whenever the chunk size is not zero,
    and for every cohort that it returns there is the cluster it was made
    from, a list of responders of the input that declared the cohort's
    network: [common_start] is the least of the starts of the cluster and
    [common_end] the least of its ends, so both are at most the bound of
    every member; the chunks of the cohort hold members of the cluster
    only, and all of them when the chunk size is positive. *)
Theorem cohort_bounds_are_minima :
  ∀ (Latency Output Axon : Type) (Heq : EqDecision Output)
    (E : Externals Latency Output Axon),
    (∀ l w, (ext_shuffle l w).1 ≡ₚ l) →
    ∀ cfg (rs : list (Item Axon)) st,
      (benchmark_query_chunk_size cfg ≠ 0%Z →
       ∃ groups st', group_responses cfg rs st = (Ok groups, st')) ∧
      (∀ groups st' net main_group label info,
         group_responses cfg rs st = (Ok groups, st') →
         (net, main_group) ∈ groups → (label, info) ∈ main_group →
         ∃ cluster,
           (∀ m, m ∈ cluster → m ∈ rs ∧ network m.1 = net) ∧
           (∀ m, m ∈ members info → m ∈ cluster) ∧
           ((0 < benchmark_query_chunk_size cfg)%Z → members info = cluster) ∧
           is_minimum (common_start info) (starts cluster) ∧
           is_minimum (common_end info) (ends cluster) ∧
           (∀ m, m ∈ cluster →
                 (common_start info ≤ start_block_height m.1)%Z ∧
                 (common_end info ≤ block_height m.1)%Z)).
Proof.
  intros Latency Output Axon Heq E Hshuffle cfg rs st. split.
  - by apply group_responses_total.
  - intros groups st' net main_group label info Hg Hnet Hlabel.
    destruct (group_responses_cohorts Hshuffle _ _ _ _ _ Hg _ _ _ _ Hnet Hlabel)
      as (cluster & Hrs & Hsub & Hall & Hstart & Hend).
    exists cluster. repeat (split; [done|]).
    intros m Hm. split.
    + apply Hstart. unfold starts. apply list_elem_of_fmap. by exists m.
    + apply Hend. unfold ends. apply list_elem_of_fmap. by exists m.
Qed.

Lemma cohort_bounds_are_minima_witness :
  ∃ cluster,
    (∀ m, m ∈ cluster → m ∈ [Bench.a1; Bench.a2] ∧ network m.1 = "bitcoin") ∧
    (∀ m, m ∈ members Bench.cohort_a → m ∈ cluster) ∧
    ((0 < benchmark_query_chunk_size default_config)%Z →
     members Bench.cohort_a = cluster) ∧
    is_minimum (common_start Bench.cohort_a) (starts cluster) ∧
    is_minimum (common_end Bench.cohort_a) (ends cluster) ∧
    (∀ m, m ∈ cluster →
          (common_start Bench.cohort_a ≤ start_block_height m.1)%Z ∧
          (common_end Bench.cohort_a ≤ block_height m.1)%Z).
Proof.
  apply (proj2 (cohort_bounds_are_minima Z string (Reply Z string) _
                  Bench.externals bench_shuffle_perm
                  default_config [Bench.a1; Bench.a2] Bench.st0)
           [("bitcoin", [(0%Z, Bench.cohort_a)])] Bench.st0
           "bitcoin" [(0%Z, Bench.cohort_a)] 0%Z Bench.cohort_a).
  - reflexivity.
  - apply list_elem_of_singleton. reflexivity.
  - apply list_elem_of_singleton. reflexivity.
Defined.














(** * Further properties of the engine *)

(** ** The chunks of a cohort (line 106) *)

Section ChunkSizeFacts.
Context {Latency Output Axon : Type} `{EqDecision Output}.
Context `{E : Externals Latency Output Axon}.

(** The start of every slice is inside the list, and every slice but the
    last is full. *)
Lemma range_step_bounds (stop n j : nat) :
  0 < n → j < (stop + n - 1) `div` n →
  j * n < stop ∧ (S j < (stop + n - 1) `div` n → S j * n ≤ stop).
Proof.
  intros Hn Hj.
  pose proof (Nat.Div0.mul_div_le (stop + n - 1) n) as Hk.
  change (Nat.div ?a ?b) with (a `div` b) in Hk.
  split; [nia|]. intros HS. nia.
Qed.

Lemma chunk_lookup {A} (n : nat) (l : list A) (i : nat) c :
  ((λ i, take n (drop i l)) <$> range_step (length l) n) !! i = Some c →
  i < (length l + n - 1) `div` n ∧ c = take n (drop (i * n) l).
Proof.
  unfold range_step. rewrite !list_lookup_fmap.
  destruct (seq 0 _ !! i) as [j|] eqn:Hj; [|done]. simpl.
  apply lookup_seq in Hj as [-> Hlt]. by intros [= <-].
Qed.

(** For a positive chunk size, no chunk is empty or larger than the chunk
    size, and only the last one can be smaller. *)
Lemma chunked_sizes {A} (chunk_size : Z) (l : list A) st chunks st' :
  (0 < chunk_size)%Z →
  chunked chunk_size l st = (Ok chunks, st') →
  ∀ i c, chunks !! i = Some c →
    (0 < Z.of_nat (length c) ≤ chunk_size)%Z ∧
    (S i < length chunks → Z.of_nat (length c) = chunk_size).
Proof.
  intros Hcs. unfold chunked. rewrite !decide_False by lia.
  intros [= <- <-] i c Hc.
  assert (length ((λ i, take (Z.to_nat chunk_size) (drop i l)) <$>
                  range_step (length l) (Z.to_nat chunk_size))
          = (length l + Z.to_nat chunk_size - 1) `div` Z.to_nat chunk_size)
    as Hlen.
  { unfold range_step. by rewrite !length_fmap, length_seq. }
  rewrite Hlen. apply chunk_lookup in Hc as [Hi ->].
  destruct (range_step_bounds (length l) (Z.to_nat chunk_size) i
              ltac:(lia) Hi) as [Hin Hfull].
  rewrite length_take, length_drop. split; [lia|].
  intros HS. specialize (Hfull HS). lia.
Qed.

(** What one iteration of the loop over the clusters adds: the chunks of
    the shuffled cluster. *)
Lemma add_cohort_chunks chunk_size net new_groups label
    (group : list (Item Axon)) st new_groups' st' :
  add_cohort chunk_size net new_groups (label, group) st = (Ok new_groups', st') →
  ∃ g st1 chunks min_start min_end,
    g = (ext_shuffle group (world st)).1 ∧
    chunked chunk_size g st1 = (Ok chunks, st1) ∧
    new_groups' =
      dict_upd net
        (λ o, dict_upd label
                (λ _, {| common_start := min_start; common_end := min_end;
                         responses := chunks |})
                (default [] o))
        new_groups.
Proof.
  unfold add_cohort.
  destruct (shuffle_Ok group st) as (st1 & Hs & _).
  rewrite (bind_eq _ _ _ _ _ Hs).
  intros (chunks & st2 & Hc & Hrest)%bind_Ok.
  apply bind_Ok in Hrest as (min_start & st3 & Hmin1 & Hrest).
  apply bind_Ok in Hrest as (min_end & st4 & Hmin2 & Hrest).
  injection Hrest as <- <-.
  pose proof Hc as (-> & _)%chunked_Ok.
  by eexists _, st1, chunks, min_start, min_end.
Qed.

(** A property of the chunks that [chunked] gives holds of every cohort
    of the grouping. *)
Lemma group_responses_chunks cfg (rs : list (Item Axon)) st groups st'
    (P : list (list (Item Axon)) → Prop) :
  (∀ (g : list (Item Axon)) st1 chunks,
     chunked (benchmark_query_chunk_size cfg) g st1 = (Ok chunks, st1) →
     P chunks) →
  group_responses cfg rs st = (Ok groups, st') →
  all_cohorts groups (λ _ info, P (responses info)).
Proof.
  intros HP. unfold group_responses.
  apply (for_each_inv (λ ng _, all_cohorts ng (λ _ info, P (responses info)))).
  - intros acc [net items] st1 acc' st1' _ Hacc. unfold add_network.
    destruct (ext_kmeans _ _) as [labels|]; [|unfold ret; by intros [= <- <-]].
    revert Hacc.
    apply (for_each_inv (λ ng _, all_cohorts ng (λ _ info, P (responses info)))).
    intros acc2 [label group] st2 acc2' st2' _ Hacc2
      (g & st3 & chunks & min_start & min_end & _ & Hc & ->)%add_cohort_chunks.
    apply all_cohorts_upd; [done|]. simpl. by eapply HP.
  - by intros ? ? ? ? ?%elem_of_nil.
Qed.

End ChunkSizeFacts.

(** X1.  With a positive chunk size, every chunk of every cohort that
    [group_responses] returns holds at least one responder and at most
    [chunk_size] of them, and every chunk of a cohort but its last holds
    exactly [chunk_size]. *)
Theorem chunks_are_bounded :
  ∀ (Latency Output Axon : Type) (Heq : EqDecision Output)
    (E : Externals Latency Output Axon)
    cfg (rs : list (Item Axon)) st groups st' net main_group label info i chunk,
    (0 < benchmark_query_chunk_size cfg)%Z →
    group_responses cfg rs st = (Ok groups, st') →
    (net, main_group) ∈ groups → (label, info) ∈ main_group →
    responses info !! i = Some chunk →
    (0 < Z.of_nat (length chunk) ≤ benchmark_query_chunk_size cfg)%Z ∧
    (S i < length (responses info) →
     Z.of_nat (length chunk) = benchmark_query_chunk_size cfg).
Proof.
  intros Latency Output Axon Heq E cfg rs st groups st' net main_group label
    info i chunk Hcs Hg Hnet Hlabel Hchunk.
  eapply (group_responses_chunks cfg rs st groups st'
            (λ chunks, ∀ i c, chunks !! i = Some c →
               (0 < Z.of_nat (length c) ≤ benchmark_query_chunk_size cfg)%Z ∧
               (S i < length chunks →
                Z.of_nat (length c) = benchmark_query_chunk_size cfg)));
    [|exact Hg|exact Hnet|exact Hlabel|exact Hchunk].
  intros g st1 chunks Hc. by eapply chunked_sizes.
Qed.

Lemma chunks_are_bounded_witness :
  ∃ groups st' info chunk,
    group_responses Bench.config_chunks_of_2 Bench.five Bench.st0
      = (Ok groups, st') ∧
    groups = [("litecoin", [(0%Z, info)])] ∧
    responses info !! 0 = Some chunk ∧
    (0 < Z.of_nat (length chunk)
       ≤ benchmark_query_chunk_size Bench.config_chunks_of_2)%Z ∧
    (1 < length (responses info) →
     Z.of_nat (length chunk)
     = benchmark_query_chunk_size Bench.config_chunks_of_2).
Proof.
  eexists _, _, _, _. split; [reflexivity|]. split; [reflexivity|].
  split; [reflexivity|].
  eapply (chunks_are_bounded Z string (Reply Z string) _ Bench.externals
            Bench.config_chunks_of_2 Bench.five Bench.st0).
  - reflexivity.
  - reflexivity.
  - apply list_elem_of_singleton. reflexivity.
  - apply list_elem_of_singleton. reflexivity.
  - reflexivity.
Defined.

(** ** A chunk size that is not positive *)

Section BadChunkSizeFacts.
Context {Latency Output Axon : Type} `{EqDecision Output}.
Context `{E : Externals Latency Output Axon}.

Hypothesis shuffle_perm : ∀ l w, (ext_shuffle l w).1 ≡ₚ l.

(** Iterations that do nothing make a loop that does nothing. *)
Lemma for_each_skip_all {A S} (body : S → A → M S) l :
  (∀ x, x ∈ l → ∀ acc st, body acc x st = (Ok acc, st)) →
  ∀ acc st, for_each body l acc st = (Ok acc, st).
Proof.
  induction l as [|x l IH]; intros Hbody acc st; [done|].
  rewrite for_each_cons, (bind_eq _ _ _ _ _ (Hbody x ltac:(by left) acc st)).
  apply IH. intros y Hy. apply Hbody. by right.
Qed.

(** A loop whose iterations do nothing or raise, and one of which raises,
    raises. *)
Lemma for_each_raises {A S} (R : St → St → Prop) (body : S → A → M S) e l :
  (∀ x, x ∈ l → ∀ acc st,
     body acc x st = (Ok acc, st) ∨
     ∃ st', body acc x st = (Raised e, st') ∧ R st st') →
  (∃ x, x ∈ l ∧ ∀ acc st, ∃ st', body acc x st = (Raised e, st') ∧ R st st') →
  ∀ acc st, ∃ st', for_each body l acc st = (Raised e, st') ∧ R st st'.
Proof.
  induction l as [|x l IH]; intros Hbody (y & Hy & Hraise) acc st.
  { by apply elem_of_nil in Hy. }
  rewrite for_each_cons.
  destruct (Hbody x ltac:(by left) acc st) as [Hx|(st' & Hx & HR)].
  - rewrite (bind_eq _ _ _ _ _ Hx).
    apply elem_of_cons in Hy as [->|Hy].
    + destruct (Hraise acc st) as (st' & Hx' & _). congruence.
    + apply IH; [|by exists y]. intros z Hz. apply Hbody. by right.
  - exists st'. by rewrite (bind_raised _ _ _ _ _ Hx).
Qed.

Lemma group_by_key_nil {K A} `{EqDecision K} (kvs : list (K * A)) :
  group_by_key kvs = [] → kvs = [].
Proof.
  destruct kvs as [|[k x] kvs _] using rev_ind; [done|].
  rewrite group_by_key_snoc. unfold setdefault_append.
  intros Hnil. exfalso.
  assert (k ∈ (dict_upd k (λ o, default [] o ++ [x]) (group_by_key kvs)).*1)
    as Hin.
  { rewrite dict_upd_keys. case_decide; [done|].
    apply elem_of_app. right. by left. }
  rewrite Hnil in Hin. by apply elem_of_nil in Hin.
Qed.

(** With a chunk size of zero, the loop over the clusters raises at its
    first cluster. *)
Lemma add_cohort_zero net new_groups (entry : Z * list (Item Axon)) st :
  ∃ st', add_cohort 0 net new_groups entry st = (Raised ValueError, st') ∧
         probes st' = probes st.
Proof.
  destruct entry as [label group]. unfold add_cohort.
  destruct (shuffle_Ok group st) as (st1 & Hs & Hp).
  rewrite (bind_eq _ _ _ _ _ Hs). exists st1. by split.
Qed.

Lemma add_network_zero cfg new_groups (entry : string * list (Item Axon)) st :
  benchmark_query_chunk_size cfg = 0%Z →
  add_network cfg new_groups entry st = (Ok new_groups, st) ∨
  ∃ st', add_network cfg new_groups entry st = (Raised ValueError, st') ∧
         probes st' = probes st.
Proof.
  intros Hcs. destruct entry as [net items]. unfold add_network. rewrite Hcs.
  destruct (ext_kmeans _ _) as [labels|]; [|by left].
  destruct (by_label labels items) as [|entry entries]; [by left|].
  right. rewrite for_each_cons.
  destruct (add_cohort_zero net new_groups entry st) as (st' & Hc & Hp).
  exists st'. by rewrite (bind_raised _ _ _ _ _ Hc).
Qed.

Lemma add_network_zero_raises cfg new_groups net
    (m : Item Axon) items l ls st :
  benchmark_query_chunk_size cfg = 0%Z →
  ext_kmeans (benchmark_cluster_size cfg) (coverage_points (m :: items))
    = Some (l :: ls) →
  ∃ st', add_network cfg new_groups (net, m :: items) st
           = (Raised ValueError, st') ∧
         probes st' = probes st.
Proof.
  intros Hcs Hk. unfold add_network. rewrite Hcs, Hk.
  destruct (by_label (l :: ls) (m :: items)) as [|entry entries] eqn:Hl.
  { by apply group_by_key_nil in Hl. }
  rewrite for_each_cons.
  destruct (add_cohort_zero net new_groups entry st) as (st' & Hc & Hp).
  exists st'. by rewrite (bind_raised _ _ _ _ _ Hc).
Qed.

(** With a negative chunk size, the loops of the pass have nothing to
    run. *)
Lemma run_networks_no_chunks cfg
    (groups : list (string * list (Z * GroupInfo Axon))) results st :
  all_cohorts groups (λ _ info, responses info = []) →
  for_each (run_network cfg) groups results st = (Ok results, st).
Proof.
  intros Hall. apply for_each_skip_all. intros [net mg] Hnet acc st1.
  unfold run_network. apply for_each_skip_all.
  intros [label info] Hlabel acc2 st2. unfold run_cohort. simpl.
  by rewrite (Hall _ _ _ _ Hnet Hlabel).
Qed.

End BadChunkSizeFacts.

(** X2.  A chunk size that is not positive.  With a chunk size of zero
    the pass raises [ValueError] without sending a probe as soon as the
    clustering of one network gives a label.  With a negative chunk size
    no cohort has a chunk: the pass sends no probe and returns the empty
    verdict map. *)
Theorem chunk_size_not_positive :
  ∀ (Latency Output Axon : Type) (Heq : EqDecision Output)
    (E : Externals Latency Output Axon),
    (∀ l w, (ext_shuffle l w).1 ≡ₚ l) →
    ∀ cfg (rs : list (Item Axon)) st,
      (benchmark_query_chunk_size cfg = 0%Z →
       ∀ (n : string) l ls,
         filter (λ m, network m.1 = n) rs ≠ [] →
         ext_kmeans (benchmark_cluster_size cfg)
                    (coverage_points (filter (λ m, network m.1 = n) rs))
           = Some (l :: ls) →
         ∃ st', run_benchmarks cfg rs st = (Raised ValueError, st') ∧
                probes st' = probes st) ∧
      ((benchmark_query_chunk_size cfg < 0)%Z →
       ∃ st', run_benchmarks cfg rs st = (Ok ∅, st') ∧
              probes st' = probes st).
Proof.
  intros Latency Output Axon Heq E Hshuffle cfg rs st. split.
  - intros Hcs n l ls Hne Hk.
    assert (∃ st', group_responses cfg rs st = (Raised ValueError, st') ∧
                   probes st' = probes st) as (st' & Hg & Hp).
    { unfold group_responses.
      apply (for_each_raises (λ st st', probes st' = probes st)).
      - intros entry _ acc st1. by apply add_network_zero.
      - exists (n, filter (λ m, network m.1 = n) rs). split.
        + apply dict_get_Some_elem. rewrite by_network_group, group_by_key_get.
          simpl. rewrite decide_False.
          * f_equal. clear. induction rs as [|m rs IH]; [done|].
            rewrite fmap_cons, !filter_cons. cbn [fst].
            case_decide; [rewrite fmap_cons|]; by rewrite IH.
          * intros Hnil. apply Hne. revert Hnil. clear.
            induction rs as [|m rs IH]; [done|].
            rewrite fmap_cons, !filter_cons. cbn [fst].
            case_decide; [by rewrite fmap_cons | done].
        + intros acc st1.
          destruct (filter (λ m, network m.1 = n) rs) as [|m items]; [done|].
          by eapply add_network_zero_raises. }
    exists st'. unfold run_benchmarks.
    by rewrite (bind_raised _ _ _ _ _ Hg).
  - intros Hcs.
    destruct (group_responses_total Hshuffle cfg rs st ltac:(lia))
      as (groups & st1 & Hg).
    exists st1. unfold run_benchmarks. rewrite (bind_eq _ _ _ _ _ Hg). split.
    + apply run_networks_no_chunks.
      apply (group_responses_chunks cfg rs st groups st1 (λ chunks, chunks = []));
        [|done].
      intros g st2 chunks. unfold chunked.
      rewrite decide_False by lia. rewrite decide_True by lia.
      by intros [= <-].
    + by eapply group_responses_probes.
Qed.

Lemma chunk_size_not_positive_witness :
  (∃ st', run_benchmarks Bench.config_chunks_of_0 [Bench.m1; Bench.m2] Bench.st0
            = (Raised ValueError, st') ∧
          probes st' = probes Bench.st0) ∧
  (∃ st', run_benchmarks Bench.config_chunks_negative [Bench.m1; Bench.m2]
                         Bench.st0
            = (Ok ∅, st') ∧
          probes st' = probes Bench.st0).
Proof.
  destruct (chunk_size_not_positive Z string (Reply Z string) _
              Bench.externals bench_shuffle_perm) with
    (cfg := Bench.config_chunks_of_0) (rs := [Bench.m1; Bench.m2])
    (st := Bench.st0) as [Hzero _].
  destruct (chunk_size_not_positive Z string (Reply Z string) _
              Bench.externals bench_shuffle_perm) with
    (cfg := Bench.config_chunks_negative) (rs := [Bench.m1; Bench.m2])
    (st := Bench.st0) as [_ Hneg].
  split.
  - apply (Hzero eq_refl "bitcoin" 0%Z [0%Z]); [discriminate | reflexivity].
  - apply Hneg. reflexivity.
Defined.

(** ** The cohorts of a network hold its responders, each once *)

Section PartitionFacts.
Context {Latency Output Axon : Type} `{EqDecision Output}.
Context `{E : Externals Latency Output Axon}.
Implicit Types (new_groups : list (string * list (Z * GroupInfo Axon))).

Hypothesis shuffle_perm : ∀ l w, (ext_shuffle l w).1 ≡ₚ l.





End PartitionFacts.



(** ** More on the consensus scorer *)

Section MajorityFacts.
Context {Latency Output : Type} `{EqDecision Output}.
Implicit Types (results : gmap (option Z) (Verdict Latency)).

Lemma occurrences_cons {K} `{EqDecision K} (x y : K) (l : list K) :
  occurrences x (y :: l) = (if decide (x = y) then 1 else 0) + occurrences x l.
Proof. unfold occurrences. rewrite filter_cons. by case_decide. Qed.

Lemma occurrences_le_length {K} `{EqDecision K} (x : K) (l : list K) :
  occurrences x l ≤ length l.
Proof.
  induction l as [|z l IH]; [done|]. rewrite occurrences_cons. simpl.
  case_decide; lia.
Qed.

(** Two different values share the list. *)
Lemma occurrences_two {K} `{EqDecision K} (x y : K) (l : list K) :
  x ≠ y → occurrences x l + occurrences y l ≤ length l.
Proof.
  intros Hne. induction l as [|z l IH]; [done|].
  rewrite !occurrences_cons. simpl.
  destruct (decide (x = z)), (decide (y = z)); simplify_eq; lia.
Qed.

Lemma occurrences_all {K} `{EqDecision K} (x : K) (l : list K) :
  Forall (λ y, y = x) l → occurrences x l = length l.
Proof.
  induction 1 as [|y l -> _ IH]; [done|]. rewrite occurrences_cons. simpl.
  rewrite decide_True by done. lia.
Qed.

(** A value held by more than half of the list is what
    [most_common(1)] gives. *)
Lemma strict_majority_most_common {K} `{EqDecision K} (x : K) (l : list K) :
  length l < 2 * occurrences x l →
  most_common_1 (Counter l) = [(x, occurrences x l)].
Proof.
  intros Hhalf.
  assert (l ≠ []) as Hne by (intros ->; simpl in Hhalf; lia).
  destruct (most_common_spec l Hne) as (m & Hm & _ & Hmax & _).
  destruct (decide (m = x)) as [->|Hmx]; [done|].
  pose proof (occurrences_two m x l Hmx). specialize (Hmax x). lia.
Qed.



End MajorityFacts.

(** X4.  A result returned by more than half of the outcomes that did not
    fail is the majority value, so the verdict of every scored outcome
    says whether its result is that one.  When all these outcomes carry
    the same result, and so when a single one did not fail, every scored
    outcome is in agreement. *)
Theorem strict_majority_wins :
  ∀ (Latency Output : Type) (Heq : EqDecision Output)
    (results : gmap (option Z) (Verdict Latency))
    (raw : list (Triple Latency Output)) (x : option Output),
    let valid := List.filter is_valid raw in
    let values := (λ t : Triple Latency Output, t.2) <$> valid in
    (length values < 2 * occurrences x values →
     most_common_1 (Counter values) = [(x, occurrences x values)] ∧
     ∀ l1 u lat r l2,
       valid = l1 ++ (u, lat, r) :: l2 →
       u ∉ (λ t, t.1.1) <$> l2 →
       score results valid !! u = Some (lat, bool_decide (r = x))) ∧
    (valid ≠ [] → Forall (λ r, r = x) values →
     ∀ l1 u lat r l2,
       valid = l1 ++ (u, lat, r) :: l2 →
       u ∉ (λ t, t.1.1) <$> l2 →
       score results valid !! u = Some (lat, true)).
Proof.
  intros Latency Output Heq results raw x valid values.
  assert (length values < 2 * occurrences x values →
          ∀ l1 u lat r l2,
            valid = l1 ++ (u, lat, r) :: l2 →
            u ∉ (λ t, t.1.1) <$> l2 →
            score results valid !! u = Some (lat, bool_decide (r = x)))
    as Hscore.
  { intros Hhalf l1 u lat r l2 Heq' Hni.
    rewrite (score_unfold _ _ x (occurrences x values)).
    - rewrite Heq'. by apply assign_lookup.
    - rewrite Heq'. by destruct l1.
    - by apply strict_majority_most_common. }
  split.
  - intros Hhalf. split; [by apply strict_majority_most_common | by apply Hscore].
  - intros Hne Hall l1 u lat r l2 Heq' Hni.
    rewrite (Hscore ltac:(rewrite (occurrences_all x values Hall);
                          unfold values; destruct valid; [done|simpl; lia])
               l1 u lat r l2 Heq' Hni).
    do 2 f_equal. apply bool_decide_eq_true.
    rewrite Forall_forall in Hall. apply Hall. unfold values. rewrite Heq'.
    rewrite fmap_app, fmap_cons. apply elem_of_app. right. by left.
Qed.

Lemma strict_majority_wins_witness :
  (most_common_1 (Counter ((λ t : Triple Z string, t.2) <$> Bench.raw123))
     = [(Some "X", occurrences (Some "X")
                     ((λ t : Triple Z string, t.2) <$> Bench.raw123))] ∧
   ∀ l1 u lat r l2,
     Bench.raw123 = l1 ++ (u, lat, r) :: l2 →
     u ∉ (λ t, t.1.1) <$> l2 →
     score (∅ : gmap (option Z) (Verdict Z)) Bench.raw123 !! u
       = Some (lat, bool_decide (r = Some "X"))) ∧
  score (∅ : gmap (option Z) (Verdict Z)) [(Some 8%Z, Some 70%Z, Some "Z")]
    !! Some 8%Z = Some (Some 70%Z, true).
Proof.
  split.
  - apply (proj1 (strict_majority_wins Z string _ ∅ Bench.raw123 (Some "X"))).
    vm_compute. lia.
  - apply (proj2 (strict_majority_wins Z string _ ∅
                    [(Some 8%Z, Some 70%Z, Some "Z")] (Some "Z"))
             ltac:(discriminate)
             ltac:(repeat constructor)
             [] (Some 8%Z) (Some 70%Z) (Some "Z") [] eq_refl).
    apply not_elem_of_nil.
Defined.

(** ** The probes of a chunk and the verdicts they change *)

Section ChunkFrameFacts.
Context {Latency Output Axon : Type} `{EqDecision Output}.
Context `{E : Externals Latency Output Axon}.
Implicit Types (results : gmap (option Z) (Verdict Latency)).

(** The triples that are kept come in the order of the responders, each
    under the uid of its responder. *)
Lemma valid_uids_sublist (chunk : list (Item Axon))
    (ts : list (Triple Latency Output)) :
  Forall2 outcome_of chunk ts →
  (λ t : Triple Latency Output, t.1.1) <$> List.filter is_valid ts
    `sublist_of` uid_of <$> chunk.
Proof.
  induction 1 as [|item t chunk ts Hout _ IH]; [constructor|].
  rewrite fmap_cons. destruct Hout as [->|(u & lat & o & Hu & ->)]; simpl.
  - by apply sublist_cons.
  - unfold uid_of at 1. rewrite Hu. by apply sublist_skip.
Qed.

End ChunkFrameFacts.

(** X5.  [execute_benchmarks] never raises.  The triples it returns come
    in the order of the responders of the chunk, at most one for each,
    and each holds the uid of its responder. *)
Theorem executor_keeps_order :
  ∀ (Latency Output Axon : Type) (Heq : EqDecision Output)
    (E : Externals Latency Output Axon)
    cfg (chunk : list (Item Axon)) q st,
    ∃ ts st',
      execute_benchmarks cfg chunk q st = (Ok ts, st') ∧
      (λ t : Triple Latency Output, t.1.1) <$> ts
        `sublist_of` uid_of <$> chunk ∧
      length ts ≤ length chunk.
Proof.
  intros Latency Output Axon Heq E cfg chunk q st.
  destruct (execute_benchmarks_spec cfg chunk q st)
    as (ts & st' & He & _ & Hts).
  exists (List.filter is_valid ts), st'. split; [done|].
  pose proof (valid_uids_sublist chunk ts Hts) as Hsub. split; [done|].
  apply sublist_length in Hsub. by rewrite !length_fmap in Hsub.
Qed.



(** ** Every responder of a clustered network is probed once *)

Section ProbedOnceFacts.
Context {Latency Output Axon : Type} `{EqDecision Output}.
Context `{E : Externals Latency Output Axon}.
Implicit Types (groups : list (string * list (Z * GroupInfo Axon))).

Hypothesis shuffle_perm : ∀ l w, (ext_shuffle l w).1 ≡ₚ l.








End ProbedOnceFacts.





(** ** The range that a query probes *)



(** ** When the pass ends *)

Section PassEndsFacts.
Context {Latency Output Axon : Type} `{EqDecision Output}.
Context `{E : Externals Latency Output Axon}.
Implicit Types (results : gmap (option Z) (Verdict Latency)).

Hypothesis shuffle_perm : ∀ l w, (ext_shuffle l w).1 ≡ₚ l.







End PassEndsFacts.



(** * The remote configuration *)

Section RemoteConfigFacts.
Context {Json Time : Type} `{CE : @ConfigExternals Json Time}.
Implicit Types (self : @RemoteConfig Json Time) (log : list ConfigEvent).

Lemma request_trace_S (k : nat) (url : string) :
  [Requested url; Slept RETRY_INTERVAL] ++ request_trace (S k) url
  = request_trace (S (S k)) url.
Proof. reflexivity. Qed.

(** The loop makes at least one request and at most [remaining], sleeps
    between two requests and not after the last, and leaves the url as it
    is.  It leaves the object as it is as well, unless its last request
    fetched a document: the cache is then that document, and the time of
    the last update is the time of the call if the file was written. *)
Lemma fetch_loop_spec (remaining : nat) (url : string) (current_time : Time)
    self w log self' w' log' :
  fetch_loop (S remaining) url current_time self w log = (self', w', log') →
  (∃ k, 1 ≤ k ≤ S remaining ∧ log' = log ++ request_trace k url) ∧
  config_url self' = config_url self ∧
  (self' = self ∨
   ∃ w0 json written,
     cfg_get url w0 = (Fetched json written, w') ∧
     config_cache self' = json ∧
     last_update_time self'
       = if written then current_time else last_update_time self).
Proof.
  revert w log. induction remaining as [|remaining IH]; intros w log.
  - simpl. destruct (cfg_get url w) as [[| |json [|]] w1] eqn:Hget;
      intros [= <- <- <-];
      (split; [exists 1; split; [lia|done]|]); (split; [done|]);
      try (by left); right; exists w, json; eauto.
  - cbn [fetch_loop].
    destruct (cfg_get url w) as [[| |json [|]] w1] eqn:Hget;
      try (intros [= <- <- <-];
           (split; [exists 1; split; [lia|done]|]); (split; [done|]);
           try (by left); right; exists w, json; by eauto).
    intros Hloop. destruct (IH _ _ Hloop) as ((k & Hk & Hlog) & Hurl & Hstate).
    split; [|by split].
    exists (S k). split; [lia|]. rewrite Hlog.
    destruct k as [|k]; [lia|]. rewrite <- request_trace_S.
    by rewrite <- !app_assoc.
Qed.

(** Requests that all fail leave the object as it is, after [remaining]
    requests. *)
Lemma fetch_loop_all_fail (remaining : nat) (url : string)
    (current_time : Time) self w log self' w' log' :
  (∀ w, (cfg_get url w).1 = RequestFails) →
  fetch_loop remaining url current_time self w log = (self', w', log') →
  self' = self ∧ log' = log ++ request_trace remaining url.
Proof.
  intros Hfail. revert w log.
  induction remaining as [|remaining IH]; intros w log.
  - simpl. intros [= <- <- <-]. by rewrite app_nil_r.
  - cbn [fetch_loop]. pose proof (Hfail w) as Hw.
    destruct (cfg_get url w) as [a w1]. simpl in Hw. subst a.
    destruct remaining as [|remaining].
    + simpl. by intros [= <- <- <-].
    + intros Hloop. destruct (IH _ _ Hloop) as [Hself Hlog].
      split; [done|]. rewrite Hlog, <- request_trace_S.
      by rewrite <- !app_assoc.
Qed.

End RemoteConfigFacts.

(** X10.  A call of [load_remote_config] makes no request when there is
    no url, or when there is a cache and the update is not due; in any
    other case it makes at least one request and at most [MAX_RETRIES],
    ten, with a sleep of [RETRY_INTERVAL] seconds between two requests
    and none after the last. *)
Theorem load_remote_config_requests :
  ∀ (Json Time : Type) (CE : @ConfigExternals Json Time)
    (self : @RemoteConfig Json Time) w log,
    ∃ k, k ≤ MAX_RETRIES ∧
      (load_remote_config self w log).2
        = log ++ request_trace k (default "" (config_url self)) ∧
      (k = 0 ↔
       config_url self = None ∨
       (is_Some (config_cache self) ∧
        cfg_due (cfg_time w).1 (last_update_time self) = false)).
Proof.
  intros Json Time CE self w log. unfold load_remote_config.
  destruct (config_url self) as [url|] eqn:Hurl.
  - destruct (cfg_time w) as [current_time w1] eqn:Ht. cbn [fst snd].
    destruct (cfg_due current_time (last_update_time self)
              || (if config_cache self is None then true else false))
      eqn:Hdue.
    + destruct (fetch_loop MAX_RETRIES url current_time self w1 log)
        as [[self' w'] log'] eqn:Hloop.
      destruct (fetch_loop_spec 9 url current_time self w1 log _ _ _ Hloop)
        as ((k & Hk & Hlog) & _).
      exists k. split; [unfold MAX_RETRIES; lia|]. split; [exact Hlog|].
      split; [lia|]. intros [?|[[json Hc] Hd]]; [done|].
      rewrite Hd, Hc in Hdue. done.
    + exists 0. split; [lia|]. simpl. rewrite app_nil_r. split; [done|].
      split; [|done]. intros _. right.
      apply orb_false_iff in Hdue as [Hd Hc]. split; [|done].
      by destruct (config_cache self).
  - exists 0. split; [lia|]. simpl. rewrite app_nil_r. split; [done|].
    split; [|done]. by left.
Qed.

(** X11.  A call of [load_remote_config] never changes the url, and it
    changes the cache and the time of the last update only when its last
    request fetched a document: the cache is then that document, and the
    time of the last update becomes the time read at the start of the
    call if the file was written; if writing the file raised, the new
    cache is kept with the old time. *)
Theorem load_remote_config_state :
  ∀ (Json Time : Type) (CE : @ConfigExternals Json Time)
    (self : @RemoteConfig Json Time) w log,
    let r := load_remote_config self w log in
    config_url r.1.1 = config_url self ∧
    (r.1.1 = self ∨
     ∃ url w0 json written,
       config_url self = Some url ∧
       cfg_get url w0 = (Fetched json written, r.1.2) ∧
       config_cache r.1.1 = json ∧
       last_update_time r.1.1
         = if written then (cfg_time w).1 else last_update_time self).
Proof.
  intros Json Time CE self w log. unfold load_remote_config.
  destruct (config_url self) as [url|] eqn:Hurl; [|by split; [|left]].
  destruct (cfg_time w) as [current_time w1] eqn:Ht. cbn [fst snd].
  destruct (cfg_due _ _ || _); [|by split; [|left]].
  destruct (fetch_loop MAX_RETRIES url current_time self w1 log)
    as [[self' w'] log'] eqn:Hloop.
  destruct (fetch_loop_spec 9 url current_time self w1 log _ _ _ Hloop)
    as (_ & Hu & Hstate). simpl.
  split; [by rewrite Hu|].
  destruct Hstate as [?|(w0 & json & written & ?)]; [by left|].
  right. by exists url, w0, json, written.
Qed.

(** X12.  When the update is due, or there is no cache, and every request
    raises a [RequestException], the call makes exactly ten requests, with
    a sleep between two of them, and leaves the object as it was. *)
Theorem load_remote_config_server_down :
  ∀ (Json Time : Type) (CE : @ConfigExternals Json Time)
    (self : @RemoteConfig Json Time) w log url,
    config_url self = Some url →
    (∀ w, (cfg_get url w).1 = RequestFails) →
    cfg_due (cfg_time w).1 (last_update_time self) = true
    ∨ config_cache self = None →
    (load_remote_config self w log).1.1 = self ∧
    (load_remote_config self w log).2 = log ++ request_trace 10 url.
Proof.
  intros Json Time CE self w log url Hurl Hfail Hdue.
  unfold load_remote_config. rewrite Hurl.
  destruct (cfg_time w) as [current_time w1] eqn:Ht. cbn [fst snd] in *.
  assert (cfg_due current_time (last_update_time self)
          || (if config_cache self is None then true else false) = true)
    as ->.
  { destruct Hdue as [->| ->]; [done | by rewrite orb_true_r]. }
  destruct (fetch_loop MAX_RETRIES url current_time self w1 log)
    as [[self' w'] log'] eqn:Hloop.
  by destruct (fetch_loop_all_fail 10 url current_time self w1 log _ _ _
                 Hfail Hloop) as [Hself Hlog].
Qed.

Lemma load_remote_config_server_down_witness :
  (@load_remote_config _ _ ConfigBench.down_externals
     ConfigBench.stale 10000%Z []).1.1 = ConfigBench.stale ∧
  (@load_remote_config _ _ ConfigBench.down_externals
     ConfigBench.stale 10000%Z []).2
    = [] ++ request_trace 10 "https://cfg/validator.json".
Proof.
  apply (load_remote_config_server_down string Z ConfigBench.down_externals
           ConfigBench.stale 10000%Z [] "https://cfg/validator.json").
  - reflexivity.
  - intros w. reflexivity.
  - left. reflexivity.
Defined.

(** X13.  When the update is due, or there is no cache, and the first
    request fetches a document, the call makes that one request and the
    cache becomes the document.  The time of the last update becomes the
    time of the call if the file was written; if writing the file raised,
    it stays what it was, although the cache is new. *)
Theorem load_remote_config_first_fetch :
  ∀ (Json Time : Type) (CE : @ConfigExternals Json Time)
    (self : @RemoteConfig Json Time) w log url json written,
    config_url self = Some url →
    cfg_due (cfg_time w).1 (last_update_time self) = true
    ∨ config_cache self = None →
    (cfg_get url (cfg_time w).2).1 = Fetched json written →
    (load_remote_config self w log).1.1
      = {| config_url := Some url;
           config_cache := json;
           last_update_time :=
             if written then (cfg_time w).1 else last_update_time self |} ∧
    (load_remote_config self w log).2 = log ++ [Requested url].
Proof.
  intros Json Time CE self w log url json written Hurl Hdue Hget.
  unfold load_remote_config. rewrite Hurl.
  destruct (cfg_time w) as [current_time w1] eqn:Ht. cbn [fst snd] in *.
  assert (cfg_due current_time (last_update_time self)
          || (if config_cache self is None then true else false) = true)
    as ->.
  { destruct Hdue as [->| ->]; [done | by rewrite orb_true_r]. }
  unfold MAX_RETRIES. cbn [fetch_loop].
  destruct (cfg_get url w1) as [a w2]. simpl in Hget. subst a.
  rewrite Hurl. by destruct written.
Qed.

Lemma load_remote_config_first_fetch_witness :
  (load_remote_config ConfigBench.stale ConfigBench.disk_full []).1.1
    = {| config_url := Some "https://cfg/validator.json";
         config_cache := Some "{new}";
         last_update_time := last_update_time ConfigBench.stale |} ∧
  (load_remote_config ConfigBench.stale ConfigBench.disk_full []).2
    = [] ++ [Requested "https://cfg/validator.json"].
Proof.
  apply (load_remote_config_first_fetch string Z ConfigBench.externals
           ConfigBench.stale ConfigBench.disk_full []
           "https://cfg/validator.json" (Some "{new}") false).
  - reflexivity.
  - left. reflexivity.
  - reflexivity.
Defined.

(** * The request filters of the miner *)

Section MinerFacts.
Context {Stake : Type}.

(** The position that [index] gives is the first one of the element. *)
Lemma index_of_spec (x : string) (l : list string) :
  match index_of x l with
  | Some i => l !! i = Some x ∧ ∀ j, j < i → l !! j ≠ Some x
  | None => x ∉ l
  end.
Proof.
  induction l as [|y l IH]; simpl; [apply not_elem_of_nil|].
  case_decide as Hxy.
  - subst y. split; [done|]. intros j Hj. lia.
  - destruct (index_of x l) as [i|]; simpl.
    + destruct IH as [Hi Hfirst]. split; [done|].
      intros [|j] Hj; simpl; [congruence|]. apply Hfirst. lia.
    + rewrite not_elem_of_cons. by split.
Qed.

End MinerFacts.

(** X14.  The miner serves a query exactly when the hotkey of the caller
    is in the metagraph, the network and the model type of the query are
    those of the configuration and the query is read-only.  Every query
    it serves passes the filter of the discovery as well, and for every
    request that passes a filter the priority is found without a
    [ValueError]: it is the stake at the first position of the hotkey in
    the metagraph, when the stakes are as many as the hotkeys. *)
Theorem miner_filters :
  ∀ (Stake : Type) (is_query_only : option string → bool)
    (ctx : @MinerContext Stake) (synapse : MinerQuery),
    ((blacklist_execute_query is_query_only ctx synapse).1 = false ↔
     (∃ h, dendrite_hotkey synapse = Some h ∧ h ∈ mc_hotkeys ctx) ∧
     mq_network synapse = mc_blockchain ctx ∧
     mq_model_type synapse = mc_model_type ctx ∧
     is_query_only (mq_query synapse) = true) ∧
    ((blacklist_execute_query is_query_only ctx synapse).1 = false →
     (blacklist_discovery ctx synapse).1 = false) ∧
    ((blacklist_discovery ctx synapse).1 = false →
     length (mc_stakes ctx) = length (mc_hotkeys ctx) →
     ∃ h i stake,
       dendrite_hotkey synapse = Some h ∧
       mc_hotkeys ctx !! i = Some h ∧
       (∀ j, j < i → mc_hotkeys ctx !! j ≠ Some h) ∧
       mc_stakes ctx !! i = Some stake ∧
       priority_execute_query ctx synapse = Priority stake).
Proof.
  intros Stake is_query_only ctx synapse.
  unfold blacklist_execute_query, blacklist_discovery, priority_execute_query,
    hotkey_registered.
  destruct (dendrite_hotkey synapse) as [h|]; simpl.
  - destruct (decide (h ∈ mc_hotkeys ctx)) as [Hin|Hni].
    + rewrite (bool_decide_eq_true_2 _ Hin). simpl. split; [|split].
      * destruct (decide (mq_network synapse = mc_blockchain ctx)) as [Hn|Hn].
        2:{ rewrite (bool_decide_eq_false_2 _ Hn). simpl.
            split; [done|]. by intros (_ & ? & _). }
        rewrite (bool_decide_eq_true_2 _ Hn). simpl.
        destruct (decide (mq_model_type synapse = mc_model_type ctx)) as [Hm|Hm].
        2:{ rewrite (bool_decide_eq_false_2 _ Hm). simpl.
            split; [done|]. by intros (_ & _ & ? & _). }
        rewrite (bool_decide_eq_true_2 _ Hm). simpl.
        destruct (is_query_only (mq_query synapse)); simpl.
        -- split; [|done]. intros _. split; [by exists h|done].
        -- split; [done|]. by intros (_ & _ & _ & ?).
      * done.
      * intros _ Hlen. pose proof (index_of_spec h (mc_hotkeys ctx)) as Hidx.
        destruct (index_of h (mc_hotkeys ctx)) as [i|]; [|done].
        destruct Hidx as [Hi Hfirst].
        destruct (mc_stakes ctx !! i) as [stake|] eqn:Hs.
        -- by exists h, i, stake.
        -- apply lookup_ge_None in Hs. apply lookup_lt_Some in Hi. lia.
    + rewrite (bool_decide_eq_false_2 _ Hni). simpl. split; [|done].
      split; [done|]. intros ((h' & [= <-] & ?) & _). done.
  - split; [|done]. split; [done|]. by intros ((h & ? & _) & _).
Qed.

Lemma miner_filters_witness :
  ∃ h i stake,
    dendrite_hotkey MinerBench.good_query = Some h ∧
    mc_hotkeys MinerBench.ctx !! i = Some h ∧
    (∀ j, j < i → mc_hotkeys MinerBench.ctx !! j ≠ Some h) ∧
    mc_stakes MinerBench.ctx !! i = Some stake ∧
    priority_execute_query MinerBench.ctx MinerBench.good_query
      = Priority stake.
Proof.
  destruct (miner_filters Z MinerBench.only_return MinerBench.ctx
              MinerBench.good_query) as (Hserve & Hdisc & Hprio).
  apply Hprio; [|reflexivity]. apply Hdisc. apply Hserve.
  split; [exists "bob"; split; [reflexivity|]|].
  - apply elem_of_cons. right. apply elem_of_cons. by left.
  - repeat split; reflexivity.
Defined.
